(** * Mortgage_Algo: amortization schedules and extra-payment strategies

    A shallow embedding of [src/Mortgage_Algo.py] (class [Mortgage]) and the
    properties of its schedule generator, summarizer and strategy optimizer.

    Numbers.  The class is embedded twice.  The first embedding reads
    Python's [float] values as exact rationals ([Q]): [+], [-], [*], [/]
    and [**] are the exact field operations, comparisons are the exact
    order, and [==] on floats is [Qeq]; rounding, overflow, infinities and
    NaN are outside of it.  It carries the properties of the control flow
    (which rows exist, which branch fills them, which strategy wins) and
    the identities of the annuity formula, which hold for the real numbers
    the floats stand for.  The second embedding, module [F64], is the code
    over IEEE 754 binary64 as [SpecFloat] defines it, every operation
    rounded to nearest; the C library's [pow] and the built-in [sum] are
    parameters of it.  It carries what the running program computes, and
    the inputs at which rounding makes the program leave the exact
    identities.  Python's [int] is [Z] in both.

    Exceptions.  Operations that can raise return [result]; the raising
    primitives the class reaches are division ([ZeroDivisionError]), a zero
    base raised to a negative power ([ZeroDivisionError]), [schedule[-1]] on
    an empty list ([IndexError]), [min] of an empty sequence ([ValueError])
    and, over binary64, the conversion of a float that is not finite to
    [int] ([ValueError], [OverflowError]), of an [int] out of range to
    float and an overflowing power ([OverflowError]).

    Containers.  The [lumpsum_extras] dictionaries are [gmap Z Q]; the
    insertion-ordered [results] dictionary is an association list. *)

From Stdlib Require Import QArith Qround Qpower Lqa SpecFloat.
From stdpp Require Import gmap strings list fin_maps.

Local Open Scope Q_scope.

(** ** Exceptions *)

Inductive exn : Set :=
| ZeroDivisionError
| IndexError
| ValueError
| OverflowError.

Inductive result (A : Type) : Type :=
| Ok (a : A)
| Raise (e : exn).

Arguments Ok {A} a.
Arguments Raise {A} e.

Definition bind {A B : Type} (r : result A) (k : A -> result B) : result B :=
  match r with
  | Ok a => k a
  | Raise e => Raise e
  end.

Notation "'let*' x ':=' r 'in' k" := (bind r (fun x => k))
  (at level 10, x name, r at level 100, k at level 200).

(** ** Python's numeric primitives *)

(** [a < b] on floats. *)
Definition Qltb (a b : Q) : bool := negb (Qle_bool b a).

(** [a / b] where the result is a float: raises on a zero divisor. *)
Definition py_div (a b : Q) : result Q :=
  if Qeq_bool b 0 then Raise ZeroDivisionError else Ok (a / b).

(** [base ** n] for a float base and an int exponent. *)
Definition py_pow (base : Q) (n : Z) : result Q :=
  if Qeq_bool base 0 && (n <? 0)%Z then Raise ZeroDivisionError
  else Ok (base ^ n).

(** [int(x)] on a float: truncation toward zero. *)
Definition py_int (x : Q) : Z := Z.quot (Qnum x) (Zpos (Qden x)).

(** [math.ceil(x)]. *)
Definition py_ceil (x : Q) : Z := Qceiling x.

(** [max(a, b)]: the first argument unless the second is strictly larger. *)
Definition py_max (a b : Q) : Q := if Qltb a b then b else a.

(** [range(lo, hi)]. *)
Definition py_range (lo hi : Z) : list Z :=
  map (fun i => (lo + Z.of_nat i)%Z) (seq 0 (Z.to_nat (hi - lo))).

(** ** The loan model *)

(** The attributes [Mortgage.__init__] assigns. *)
Record Mortgage : Set := {
  principal : Q;
  annual_rate : Q;
  years : Q;
  compounds_per_year : Z;
  monthly_rate : Q;
  total_periods : Z;
  monthly_payment : Q
}.

(** [Mortgage._calc_periodic_payment], on the three attributes it reads:
    [P * (r * (1 + r) ** n) / ((1 + r) ** n - 1)]. *)
Definition _calc_periodic_payment (r : Q) (n : Z) (P : Q) : result Q :=
  let* num_pow := py_pow (1 + r) n in
  let* den_pow := py_pow (1 + r) n in
  py_div (P * (r * num_pow)) (den_pow - 1).

(** [Mortgage.__init__]. *)
Definition __init__ (principal_ annual_rate_ years_ : Q) (compounds_per_year_ : Z)
  : result Mortgage :=
  let annual_rate' := annual_rate_ / 100 in
  let* monthly_rate' := py_div annual_rate' (inject_Z compounds_per_year_) in
  let total_periods' := py_int (years_ * inject_Z compounds_per_year_) in
  let* monthly_payment' :=
    _calc_periodic_payment monthly_rate' total_periods' principal_ in
  Ok {| principal := principal_;
        annual_rate := annual_rate';
        years := years_;
        compounds_per_year := compounds_per_year_;
        monthly_rate := monthly_rate';
        total_periods := total_periods';
        monthly_payment := monthly_payment' |}.

(** ** Schedule entries and summaries *)

(** One row of the schedule: the dictionary with keys [period], [payment],
    [interest], [principal], [extra], [balance]. *)
Module Entry.
Record t : Set := mk {
  period : Z;
  payment : Q;
  interest : Q;
  principal : Q;
  extra : Q;
  balance : Q
}.
End Entry.

(** The dictionary [summarize_schedule] returns. *)
Module Summary.
Record t : Set := mk {
  total_paid : Q;
  total_interest : Q;
  periods_used : Z
}.
End Summary.

(** ** Schedule generation *)

Section Schedule.
Variable self : Mortgage.
Variable recurring_extra : Q.
Variable lumpsum_extras : gmap Z Q.

(** [recurring_extra + lumpsum_extras.get(period, 0.0)]. *)
Definition extra_for (period : Z) : Q :=
  recurring_extra + default 0 (lumpsum_extras !! period).

(** One pass through the loop body: the appended row and the running
    balance after it. *)
Definition schedule_step (period : Z) (balance : Q) : Entry.t * Q :=
  let interest := balance * monthly_rate self in
  let principal_paid := monthly_payment self - interest in
  let extra := extra_for period in
  let '(principal_paid, payment, extra) :=
    if Qltb balance (principal_paid + extra)
    then (balance, balance + interest, 0)
    else (principal_paid, monthly_payment self + extra, extra) in
  let balance := balance - (principal_paid + extra) in
  (Entry.mk period payment interest principal_paid extra (py_max balance 0),
   balance).

(** The [for period in range(...)] loop with its [break]. *)
Fixpoint schedule_loop (periods : list Z) (balance : Q) : list Entry.t :=
  match periods with
  | [] => []
  | period :: rest =>
      let '(row, balance) := schedule_step period balance in
      row :: (if Qle_bool balance 0 then [] else schedule_loop rest balance)
  end.
End Schedule.

(** [Mortgage.amortization_schedule]; [None] is the default argument. *)
Definition amortization_schedule (self : Mortgage) (recurring_extra : Q)
    (lumpsum_extras : option (gmap Z Q)) : list Entry.t :=
  let lumpsum_extras := default ∅ lumpsum_extras in
  schedule_loop self recurring_extra lumpsum_extras
    (py_range 1 (total_periods self + 1)) (principal self).

(** ** Summarization *)

(** [sum(...)] over floats: left to right from [0]. *)
Definition py_sum (xs : list Q) : Q := fold_left Qplus xs 0.

(** [Mortgage.summarize_schedule]. *)
Definition summarize_schedule (schedule : list Entry.t) : result Summary.t :=
  let total_paid := py_sum (map Entry.payment schedule) in
  let total_interest := py_sum (map Entry.interest schedule) in
  match last schedule with
  | Some row => Ok (Summary.mk total_paid total_interest (Entry.period row))
  | None => Raise IndexError
  end.

(** ** Strategy optimization *)

(** [min(items, key=...)]: the first item whose key is smallest. *)
Fixpoint py_min_from {A : Type} (key : A -> Q) (best : A) (items : list A) : A :=
  match items with
  | [] => best
  | item :: rest =>
      py_min_from key (if Qltb (key item) (key best) then item else best) rest
  end.

Definition py_min {A : Type} (key : A -> Q) (items : list A) : result A :=
  match items with
  | [] => Raise ValueError
  | first :: rest => Ok (py_min_from key first rest)
  end.

(** The dictionary comprehension building [lumpsum_annual]. *)
Definition annual_lumps (self : Mortgage) (start_period years_ : Z)
    (annual_extra : Q) : gmap Z Q :=
  fold_left
    (fun d i =>
       let k := (start_period + i * compounds_per_year self)%Z in
       if (k <=? total_periods self)%Z then <[k := annual_extra]> d else d)
    (py_range 0 years_) ∅.

(** [Mortgage.optimize_extra]. *)
Definition optimize_extra (self : Mortgage) (total_extra_budget : Q)
    (start_period : Z) : result (string * Summary.t) :=
  let results : list (string * Summary.t) := [] in
  (* Strategy 1 *)
  let lumpsum : gmap Z Q := {[ start_period := total_extra_budget ]} in
  let sched := amortization_schedule self 0 (Some lumpsum) in
  let* summary := summarize_schedule sched in
  let results := results ++ [("single_lumpsum"%string, summary)] in
  (* Strategy 2 *)
  let remaining_periods := (total_periods self - start_period + 1)%Z in
  let* results :=
    if (0 <? remaining_periods)%Z then
      let* monthly_extra :=
        py_div total_extra_budget (inject_Z remaining_periods) in
      let sched := amortization_schedule self monthly_extra None in
      let* summary := summarize_schedule sched in
      Ok (results ++ [("uniform_monthly"%string, summary)])
    else Ok results in
  (* Strategy 3 *)
  let* span :=
    py_div (inject_Z (total_periods self - start_period + 1))
           (inject_Z (compounds_per_year self)) in
  let years_ := py_ceil span in
  let* annual_extra := py_div total_extra_budget (inject_Z years_) in
  let lumpsum_annual := annual_lumps self start_period years_ annual_extra in
  let sched := amortization_schedule self 0 (Some lumpsum_annual) in
  let* summary := summarize_schedule sched in
  let results := results ++ [("annual_lumpsum"%string, summary)] in
  py_min (fun kv => Summary.total_interest (snd kv)) results.

(** The three strategies [optimize_extra] evaluates, in evaluation order. *)
Inductive strategy : Set :=
| single_lumpsum
| uniform_monthly
| annual_lumpsum.

(** The key under which a strategy's summary is stored in [results]. *)
Definition strategy_name (t : strategy) : string :=
  match t with
  | single_lumpsum => "single_lumpsum"
  | uniform_monthly => "uniform_monthly"
  | annual_lumpsum => "annual_lumpsum"
  end.

(** The schedule of one strategy generated on its own: the call to
    [amortization_schedule] that [optimize_extra] makes for it, with the
    arguments computed as in lines 123-124, 128-134 and 138-145. *)
Definition strategy_schedule (self : Mortgage) (t : strategy)
    (total_extra_budget : Q) (start_period : Z) : result (list Entry.t) :=
  match t with
  | single_lumpsum =>
      Ok (amortization_schedule self 0
            (Some {[ start_period := total_extra_budget ]}))
  | uniform_monthly =>
      let remaining_periods := (total_periods self - start_period + 1)%Z in
      let* monthly_extra :=
        py_div total_extra_budget (inject_Z remaining_periods) in
      Ok (amortization_schedule self monthly_extra None)
  | annual_lumpsum =>
      let* span :=
        py_div (inject_Z (total_periods self - start_period + 1))
               (inject_Z (compounds_per_year self)) in
      let years_ := py_ceil span in
      let* annual_extra := py_div total_extra_budget (inject_Z years_) in
      Ok (amortization_schedule self 0
            (Some (annual_lumps self start_period years_ annual_extra)))
  end.

(** Generating and summarizing one strategy's schedule directly. *)
Definition direct_summary (self : Mortgage) (t : strategy)
    (total_extra_budget : Q) (start_period : Z) : result Summary.t :=
  let* sched := strategy_schedule self t total_extra_budget start_period in
  summarize_schedule sched.

(** Numeric equality of rows and of summaries: float fields compared with
    [==], integer fields with [=]. *)
Definition entry_eq (a b : Entry.t) : Prop :=
  Entry.period a = Entry.period b /\
  Entry.payment a == Entry.payment b /\
  Entry.interest a == Entry.interest b /\
  Entry.principal a == Entry.principal b /\
  Entry.extra a == Entry.extra b /\
  Entry.balance a == Entry.balance b.

Definition summary_eq (a b : Summary.t) : Prop :=
  Summary.total_paid a == Summary.total_paid b /\
  Summary.total_interest a == Summary.total_interest b /\
  Summary.periods_used a = Summary.periods_used b.

(** ** Concrete loans used in the examples *)

(** [Mortgage(100, 50, 2, 1)]: rate 1/2 per period, two periods, payment 90. *)
Definition loan_two : result Mortgage := __init__ 100 50 2 1.


(** The loan a successful construction returned (a blank record when the
    construction raised). *)
Definition dummy_loan : Mortgage :=
  {| principal := 0; annual_rate := 0; years := 0; compounds_per_year := 0;
     monthly_rate := 0; total_periods := 0; monthly_payment := 0 |}.

Definition the_loan (r : result Mortgage) : Mortgage :=
  match r with Ok m => m | Raise _ => dummy_loan end.

(** ** Auxiliary notions used in the statements *)

(** The running balance when row [i] is computed: the principal for the
    first row, the [balance] field of the previous row afterwards. *)
Definition balance_before (b0 : Q) (sched : list Entry.t) (i : nat) : Q :=
  match i with
  | O => b0
  | S j => from_option Entry.balance 0 (sched !! j)
  end.

(** [nominal r mp j] is the balance that [j] further payments of [mp] at
    rate [r] amortize exactly; [nominal_interest r mp j] is the interest
    those [j] payments contain. *)
Fixpoint nominal (r mp : Q) (j : nat) : Q :=
  match j with
  | O => 0
  | S k => (nominal r mp k + mp) / (1 + r)
  end.

Fixpoint nominal_interest (r mp : Q) (j : nat) : Q :=
  match j with
  | O => 0
  | S k => nominal r mp (S k) * r + nominal_interest r mp k
  end.

(** * The same code over binary64

    Module [F64] embeds the numeric part of the class once more, with
    Python's [float] as IEEE 754 binary64: every operation rounds to
    nearest, ties to even, as [SpecFloat] defines it.  The branch structure
    is the one of the definitions above.  The C library's [pow] and the
    built-in [sum] (whose float algorithm depends on the interpreter
    version) are parameters. *)

Module F64.

Definition prec : Z := 53.
Definition emax : Z := 1024.

Abbreviation float := spec_float.

Definition add : float -> float -> float := SFadd prec emax.
Definition sub : float -> float -> float := SFsub prec emax.
Definition mul : float -> float -> float := SFmul prec emax.
Definition div : float -> float -> float := SFdiv prec emax.
Definition ltb : float -> float -> bool := SFltb.
Definition leb : float -> float -> bool := SFleb.
Definition eqb : float -> float -> bool := SFeqb.

(** [0.0]. *)
Definition zero : float := S754_zero false.

(** The float nearest to an integer. *)
Definition of_Z (z : Z) : float := binary_normalize prec emax z 0 false.

(** [1.0]. *)
Definition one : float := of_Z 1.

(** The float a decimal literal [n * 10 ** -k] denotes, for [n] and
    [10 ** k] that are floats themselves. *)
Definition dec (n k : Z) : float := div (of_Z n) (of_Z (10 ^ k)).

(** Conversion of an [int] operand to [float]. *)
Definition of_int (z : Z) : result float :=
  match of_Z z with
  | S754_infinity _ => Raise OverflowError
  | f => Ok f
  end.

(** The integer part of a float, toward zero. *)
Definition trunc (x : float) : Z :=
  match x with
  | S754_finite s m e =>
      let v := match e with
               | Z0 => Zpos m
               | Zpos _ => (Zpos m * 2 ^ e)%Z
               | Zneg d => Z.shiftr (Zpos m) (Zpos d)
               end in
      if s then (- v)%Z else v
  | _ => 0%Z
  end.

(** [int(x)]. *)
Definition py_int (x : float) : result Z :=
  match x with
  | S754_nan => Raise ValueError
  | S754_infinity _ => Raise OverflowError
  | _ => Ok (trunc x)
  end.

(** [a / b] on floats. *)
Definition py_div (a b : float) : result float :=
  if eqb b zero then Raise ZeroDivisionError else Ok (div a b).

(** [max(a, b)]. *)
Definition py_max (a b : float) : float := if ltb a b then b else a.

(** The exact value of a finite float. *)
Definition to_Q (x : float) : Q :=
  match x with
  | S754_finite s m e => inject_Z (if s then Zneg m else Zpos m) * 2 ^ e
  | _ => 0
  end.

Record Mortgage : Set := {
  principal : float;
  annual_rate : float;
  years : float;
  compounds_per_year : Z;
  monthly_rate : float;
  total_periods : Z;
  monthly_payment : float
}.

Module Entry.
Record t : Set := mk {
  period : Z;
  payment : float;
  interest : float;
  principal : float;
  extra : float;
  balance : float
}.
End Entry.

Module Summary.
Record t : Set := mk {
  total_paid : float;
  total_interest : float;
  periods_used : Z
}.
End Summary.

Section Runtime.
Variable libm_pow : float -> float -> float.
Variable builtin_sum : list float -> float.

(** [base ** n] for a float base and an int exponent: the special cases
    the interpreter settles itself, then the C library's [pow]. *)
Definition py_pow (base : float) (n : Z) : result float :=
  let* w := of_int n in
  let k := trunc w in
  if (k =? 0)%Z then Ok one
  else
    match base with
    | S754_nan => Ok base
    | S754_infinity s =>
        if (0 <? k)%Z
        then Ok (if Z.odd k then base else S754_infinity false)
        else Ok (if Z.odd k then S754_zero s else zero)
    | S754_zero s =>
        if (k <? 0)%Z then Raise ZeroDivisionError
        else Ok (if Z.odd k then base else zero)
    | S754_finite s m e =>
        let negate := s && Z.odd k in
        let v := S754_finite false m e in
        if eqb v one then Ok (if negate then SFopp one else one)
        else
          let ix := libm_pow v w in
          let ix := if negate then SFopp ix else ix in
          match ix with
          | S754_infinity _ => Raise OverflowError
          | _ => Ok ix
          end
    end.

(** [Mortgage._calc_periodic_payment]. *)
Definition _calc_periodic_payment (r : float) (n : Z) (P : float)
  : result float :=
  let* num_pow := py_pow (add one r) n in
  let num := mul P (mul r num_pow) in
  let* den_pow := py_pow (add one r) n in
  py_div num (sub den_pow one).

(** [Mortgage.__init__]. *)
Definition __init__ (principal_ annual_rate_ years_ : float)
    (compounds_per_year_ : Z) : result Mortgage :=
  let annual_rate' := div annual_rate_ (of_Z 100) in
  let* cpy := of_int compounds_per_year_ in
  let* monthly_rate' := py_div annual_rate' cpy in
  let* total_periods' := py_int (mul years_ cpy) in
  let* monthly_payment' :=
    _calc_periodic_payment monthly_rate' total_periods' principal_ in
  Ok {| principal := principal_;
        annual_rate := annual_rate';
        years := years_;
        compounds_per_year := compounds_per_year_;
        monthly_rate := monthly_rate';
        total_periods := total_periods';
        monthly_payment := monthly_payment' |}.

Variable self : Mortgage.
Variable recurring_extra : float.
Variable lumpsum_extras : gmap Z float.

Definition extra_for (period : Z) : float :=
  add recurring_extra (default zero (lumpsum_extras !! period)).

Definition schedule_step (period : Z) (balance : float) : Entry.t * float :=
  let interest := mul balance (monthly_rate self) in
  let principal_paid := sub (monthly_payment self) interest in
  let extra := extra_for period in
  let '(principal_paid, payment, extra) :=
    if ltb balance (add principal_paid extra)
    then (balance, add balance interest, zero)
    else (principal_paid, add (monthly_payment self) extra, extra) in
  let balance := sub balance (add principal_paid extra) in
  (Entry.mk period payment interest principal_paid extra (py_max balance zero),
   balance).

Fixpoint schedule_loop (periods : list Z) (balance : float) : list Entry.t :=
  match periods with
  | [] => []
  | period :: rest =>
      let '(row, balance) := schedule_step period balance in
      row :: (if leb balance zero then [] else schedule_loop rest balance)
  end.

(** [Mortgage.summarize_schedule]. *)
Definition summarize_schedule (schedule : list Entry.t) : result Summary.t :=
  let total_paid := builtin_sum (map Entry.payment schedule) in
  let total_interest := builtin_sum (map Entry.interest schedule) in
  match last schedule with
  | Some row => Ok (Summary.mk total_paid total_interest (Entry.period row))
  | None => Raise IndexError
  end.
End Runtime.

(** [Mortgage.amortization_schedule]. *)
Definition amortization_schedule (self : Mortgage) (recurring_extra : float)
    (lumpsum_extras : option (gmap Z float)) : list Entry.t :=
  let lumpsum_extras := default ∅ lumpsum_extras in
  schedule_loop self recurring_extra lumpsum_extras
    (py_range 1 (total_periods self + 1)) (principal self).

(** The running balance when row [i] is computed. *)
Definition balance_before (b0 : float) (sched : list Entry.t) (i : nat)
  : float :=
  match i with
  | O => b0
  | S j => from_option Entry.balance zero (sched !! j)
  end.

(** A [pow] that returns the exact power rounded to nearest, and a [sum]
    that adds from left to right starting at 0: the instances the
    evaluated examples use. *)
Definition pow_rounded (v w : float) : float :=
  match v with
  | S754_finite s m e =>
      match trunc w with
      | Zpos k =>
          binary_normalize prec emax (Zpos (Pos.pow m k)) (e * Zpos k) false
      | Zneg k =>
          div (S754_finite false 1 0)
              (S754_finite false (Pos.pow m k) (e * Zpos k))
      | Z0 => one
      end
  | _ => S754_nan
  end.

Definition sum_left (xs : list float) : float := fold_left add xs zero.

(** The loan a successful construction returned. *)
Definition the_loan (r : result Mortgage) : Mortgage :=
  match r with
  | Ok m => m
  | Raise _ =>
      {| principal := zero; annual_rate := zero; years := zero;
         compounds_per_year := 0; monthly_rate := zero; total_periods := 0;
         monthly_payment := zero |}
  end.

End F64.

(** * Properties *)

(** ** Comparisons and ranges *)

Lemma Qltb_lt (a b : Q) : Qltb a b = true <-> a < b.
Proof.
  unfold Qltb. rewrite negb_true_iff. split.
  - intros H. apply Qnot_le_lt. intros Hle.
    apply Qle_bool_iff in Hle. congruence.
  - intros H. destruct (Qle_bool b a) eqn:E; [|reflexivity].
    apply Qle_bool_iff in E. exfalso. eapply Qlt_not_le; eassumption.
Qed.

Lemma Qltb_ge (a b : Q) : Qltb a b = false <-> b <= a.
Proof.
  unfold Qltb. rewrite negb_false_iff. apply Qle_bool_iff.
Qed.

Lemma Qle_bool_gt (a b : Q) : Qle_bool a b = false <-> b < a.
Proof.
  rewrite <- Qltb_lt. unfold Qltb. rewrite negb_true_iff. reflexivity.
Qed.

Lemma py_range_cons (lo hi : Z) :
  (lo < hi)%Z -> py_range lo hi = lo :: py_range (lo + 1) hi.
Proof.
  intros H. unfold py_range.
  replace (Z.to_nat (hi - lo)) with (S (Z.to_nat (hi - (lo + 1)))) by lia.
  cbn [seq map]. f_equal; [lia|].
  rewrite <- seq_shift, map_map. apply map_ext. intros i. lia.
Qed.

Lemma py_range_length (lo hi : Z) :
  length (py_range lo hi) = Z.to_nat (hi - lo).
Proof. unfold py_range. now rewrite length_map, length_seq. Qed.

Lemma py_range_lookup (lo hi : Z) (i : nat) (p : Z) :
  py_range lo hi !! i = Some p -> p = (lo + Z.of_nat i)%Z /\ (p < hi)%Z.
Proof.
  unfold py_range. rewrite list_lookup_fmap. intros H.
  destruct (seq 0 (Z.to_nat (hi - lo)) !! i) as [k|] eqn:E; [|discriminate].
  apply lookup_seq in E as [-> Hk]. cbn in H. injection H as <-. lia.
Qed.

Lemma py_range_elem (lo hi p : Z) :
  p ∈ py_range lo hi -> (lo <= p < hi)%Z.
Proof.
  intros [i Hi]%list_elem_of_lookup.
  apply py_range_lookup in Hi. lia.
Qed.

(** ** Lump sums beyond the term *)

Lemma schedule_loop_ext (self : Mortgage) (re : Q) (l1 l2 : gmap Z Q)
    (periods : list Z) (b : Q) :
  (forall p, p ∈ periods -> l1 !! p = l2 !! p) ->
  schedule_loop self re l1 periods b = schedule_loop self re l2 periods b.
Proof.
  revert b. induction periods as [|p rest IH]; intros b Hl; [reflexivity|].
  cbn [schedule_loop]. unfold schedule_step, extra_for.
  rewrite (Hl p) by apply list_elem_of_here.
  destruct (Qltb b _); cbn; (destruct (Qle_bool _ 0); [reflexivity|]);
    f_equal; apply IH; intros q Hq; apply Hl; now apply list_elem_of_further.
Qed.

(** C9. A lump sum keyed at a period greater than [total_periods] is never
    read: removing that key from the mapping leaves the generated schedule
    unchanged, entry for entry. *)
Theorem lumpsum_beyond_term_ignored (self : Mortgage) (re : Q)
    (lumps : gmap Z Q) (k : Z) :
  (total_periods self < k)%Z ->
  amortization_schedule self re (Some lumps)
  = amortization_schedule self re (Some (delete k lumps)).
Proof.
  intros Hk. unfold amortization_schedule. cbn [default].
  apply schedule_loop_ext. intros p Hp%py_range_elem.
  symmetry. apply lookup_delete_ne. lia.
Qed.

Lemma lumpsum_beyond_term_ignored_witness :
  amortization_schedule (the_loan loan_two) 0 (Some {[ 1%Z := 5; 7%Z := 1000 ]})
  = amortization_schedule (the_loan loan_two) 0
      (Some (delete 7%Z ({[ 1%Z := 5; 7%Z := 1000 ]} : gmap Z Q))).
Proof.
  apply (lumpsum_beyond_term_ignored (the_loan loan_two) 0
           {[ 1%Z := 5; 7%Z := 1000 ]} 7).
  vm_compute. reflexivity.
Defined.

(** ** Loan construction *)

Lemma py_int_floor (x : Q) : 0 <= x -> py_int x = Qfloor x.
Proof.
  destruct x as [num den]. unfold py_int, Qfloor, Qle. cbn [Qnum Qden].
  intros H. apply Z.quot_div_nonneg; lia.
Qed.

Lemma floor_pos_nonneg (x : Q) : (1 <= Qfloor x)%Z -> 0 <= x.
Proof.
  intros H. apply Qle_trans with (inject_Z (Qfloor x)); [|apply Qfloor_le].
  change 0 with (inject_Z 0). rewrite <- Zle_Qle. lia.
Qed.

Lemma inject_Z_zero (c : Z) : inject_Z c == 0 -> c = 0%Z.
Proof. unfold Qeq. cbn. lia. Qed.

Lemma Qdiv_zero_divisor (x d : Q) : d == 0 -> x / d == 0.
Proof. intros ->. unfold Qdiv, Qinv. cbn. ring. Qed.

Lemma periodic_rate_divisor (x : Q) (c : Z) :
  ~ x / inject_Z c == 0 -> Qeq_bool (inject_Z c) 0 = false.
Proof.
  intros H. destruct (Qeq_bool (inject_Z c) 0) eqn:E; [|reflexivity].
  apply Qeq_bool_iff in E. exfalso. apply H. now apply Qdiv_zero_divisor.
Qed.

Lemma init_unfold (P a y : Q) (c : Z) (m : Mortgage) :
  __init__ P a y c = Ok m ->
  let r := (a / 100) / inject_Z c in
  let n := py_int (y * inject_Z c) in
  principal m = P /\ monthly_rate m = r /\ total_periods m = n /\
  monthly_payment m = P * (r * (1 + r) ^ n) / ((1 + r) ^ n - 1).
Proof.
  unfold __init__, py_div at 1.
  destruct (Qeq_bool (inject_Z c) 0); [discriminate|]. cbn [bind].
  unfold _calc_periodic_payment, py_pow.
  destruct (Qeq_bool (1 + _) 0 && _); [discriminate|]. cbn [bind].
  unfold py_div. destruct (Qeq_bool _ 0); [discriminate|].
  intros [= <-]. cbn. auto.
Qed.

(** Exact arithmetic.  Construction computes the payment by the annuity
    formula on P = principal, r = (annual_rate / 100) / compounds_per_year and
    n = floor(years * compounds_per_year): every loan constructed from a
    non-negative years * compounds_per_year has exactly that rate, period
    count and payment.  When r > 0 and n >= 1 the denominator
    (1 + r)^n - 1 is nonzero and construction succeeds; when r = 0
    construction raises ZeroDivisionError. *)
Theorem periodic_payment_formula (P a y : Q) (c : Z) :
  let r := (a / 100) / inject_Z c in
  let n := Qfloor (y * inject_Z c) in
  (forall m, __init__ P a y c = Ok m -> 0 <= y * inject_Z c ->
     principal m = P /\ monthly_rate m = r /\ total_periods m = n /\
     monthly_payment m = P * (r * (1 + r) ^ n) / ((1 + r) ^ n - 1)) /\
  (0 < r -> (1 <= n)%Z ->
   ~ (1 + r) ^ n - 1 == 0 /\ exists m, __init__ P a y c = Ok m) /\
  (r == 0 -> __init__ P a y c = Raise ZeroDivisionError).
Proof.
  intros r n. split; [|split].
  - intros m Hm Hy. unfold n. rewrite <- py_int_floor by exact Hy.
    exact (init_unfold P a y c m Hm).
  - intros Hr Hn.
    assert (Hpow : 1 < (1 + r) ^ n).
    { apply Qpower_1_lt; [lra | lia]. }
    assert (Hden : ~ (1 + r) ^ n - 1 == 0) by lra.
    split; [exact Hden|].
    unfold __init__, py_div at 1.
    rewrite (periodic_rate_divisor (a / 100) c) by (fold r; lra).
    cbn [bind]. rewrite py_int_floor by now apply floor_pos_nonneg.
    fold r n.
    unfold _calc_periodic_payment, py_pow.
    replace (Qeq_bool (1 + r) 0) with false
      by (symmetry; apply not_true_is_false; intros E%Qeq_bool_iff; lra).
    cbn [andb bind]. unfold py_div.
    replace (Qeq_bool ((1 + r) ^ n - 1) 0) with false
      by (symmetry; apply not_true_is_false; intros E%Qeq_bool_iff; lra).
    eexists. reflexivity.
  - intros Hr. unfold __init__, py_div at 1.
    destruct (Qeq_bool (inject_Z c) 0); [reflexivity|].
    cbn [bind]. fold r.
    unfold _calc_periodic_payment, py_pow.
    replace (Qeq_bool (1 + r) 0) with false
      by (symmetry; apply not_true_is_false; intros E%Qeq_bool_iff; lra).
    cbn [andb bind]. unfold py_div.
    replace (Qeq_bool ((1 + r) ^ py_int (y * inject_Z c) - 1) 0) with true;
      [reflexivity|].
    symmetry. apply Qeq_bool_iff.
    assert (E : 1 + r == 1) by lra. rewrite E, Qpower_1. ring.
Qed.

(** ** Generated rows *)

Lemma schedule_loop_cons (self : Mortgage) (re : Q) (lumps : gmap Z Q)
    (p : Z) (rest : list Z) (b : Q) :
  schedule_loop self re lumps (p :: rest) b
  = fst (schedule_step self re lumps p b)
    :: (if Qle_bool (snd (schedule_step self re lumps p b)) 0 then []
        else schedule_loop self re lumps rest
               (snd (schedule_step self re lumps p b))).
Proof. cbn [schedule_loop]. now destruct (schedule_step self re lumps p b). Qed.

Lemma amortization_schedule_nonempty (self : Mortgage) (re : Q)
    (lumps : option (gmap Z Q)) :
  (1 <= total_periods self)%Z -> amortization_schedule self re lumps <> [].
Proof.
  intros H. unfold amortization_schedule.
  rewrite py_range_cons by lia. now rewrite schedule_loop_cons.
Qed.

Lemma last_nonempty {A : Type} (l : list A) : l <> [] -> exists x, last l = Some x.
Proof.
  induction l as [|a [|b l] IH]; intros H; [congruence|now exists a|].
  apply IH. discriminate.
Qed.

Lemma summarize_schedule_nonempty (schedule : list Entry.t) :
  schedule <> [] ->
  exists row, last schedule = Some row /\
    summarize_schedule schedule
    = Ok (Summary.mk (py_sum (map Entry.payment schedule))
                     (py_sum (map Entry.interest schedule))
                     (Entry.period row)).
Proof.
  intros [row Hrow]%last_nonempty. exists row. split; [exact Hrow|].
  unfold summarize_schedule. now rewrite Hrow.
Qed.

(** ** A start period beyond the term *)

Lemma ceil_unit_interval (rem cpy : Z) :
  (- cpy < rem <= 0)%Z -> py_ceil (inject_Z rem / inject_Z cpy) = 0%Z.
Proof.
  intros [Hlo Hhi]. unfold py_ceil.
  set (x := inject_Z rem / inject_Z cpy).
  assert (Hc : 0 < inject_Z cpy).
  { change 0 with (inject_Z 0). rewrite <- Zlt_Qlt. lia. }
  assert (Hx : x * inject_Z cpy == inject_Z rem).
  { unfold x. field. intros E. rewrite E in Hc. now apply Qlt_irrefl in Hc. }
  assert (Hr1 : inject_Z rem <= 0).
  { change 0 with (inject_Z 0). rewrite <- Zle_Qle. lia. }
  assert (Hr2 : - inject_Z cpy < inject_Z rem).
  { rewrite <- inject_Z_opp, <- Zlt_Qlt. lia. }
  assert (Hx1 : x <= 0) by nra.
  assert (Hx2 : -1 < x) by nra.
  pose proof (Qle_ceiling x) as H1. pose proof (Qceiling_lt x) as H2.
  assert (H3 : inject_Z (-1) < inject_Z (Qceiling x)).
  { apply Qlt_le_trans with x; [exact Hx2 | exact H1]. }
  assert (H4 : inject_Z (Qceiling x - 1) < inject_Z 0).
  { apply Qlt_le_trans with x; [exact H2 | exact Hx1]. }
  rewrite <- Zlt_Qlt in H3, H4. lia.
Qed.

(** C10. For a loan with at least one period and a start period with
    total_periods < start_period <= total_periods + compounds_per_year, the
    uniform strategy is skipped by its guard, the annual strategy computes
    years = 0, and optimize_extra raises ZeroDivisionError at
    budget / years. *)
Theorem optimize_extra_start_beyond_term (self : Mortgage) (budget : Q)
    (start_period : Z) :
  (1 <= total_periods self)%Z ->
  (total_periods self < start_period
   <= total_periods self + compounds_per_year self)%Z ->
  optimize_extra self budget start_period = Raise ZeroDivisionError.
Proof.
  intros HT [Hlo Hhi]. unfold optimize_extra.
  destruct (summarize_schedule_nonempty
              (amortization_schedule self 0 (Some {[start_period := budget]})))
    as (row & _ & ->); [now apply amortization_schedule_nonempty|].
  cbn [bind].
  replace (0 <? total_periods self - start_period + 1)%Z with false
    by (symmetry; apply Z.ltb_ge; lia).
  cbn [bind]. unfold py_div at 1.
  replace (Qeq_bool (inject_Z (compounds_per_year self)) 0) with false.
  2:{ symmetry. apply not_true_is_false.
      intros E%Qeq_bool_iff%inject_Z_zero. lia. }
  cbn [bind]. rewrite ceil_unit_interval by lia. reflexivity.
Qed.

Lemma optimize_extra_start_beyond_term_witness :
  optimize_extra (the_loan loan_two) 10 3 = Raise ZeroDivisionError.
Proof.
  apply (optimize_extra_start_beyond_term (the_loan loan_two) 10 3);
    vm_compute; intuition discriminate.
Defined.

(** ** The rows of a schedule, one loop pass at a time *)


Lemma py_max_pos (b : Q) : 0 < b -> py_max b 0 = b.
Proof.
  intros H. unfold py_max.
  replace (Qltb b 0) with false; [reflexivity|].
  symmetry. apply Qltb_ge. lra.
Qed.

Lemma schedule_loop_empty (self : Mortgage) (re : Q) (lumps : gmap Z Q)
    (periods : list Z) (b : Q) :
  schedule_loop self re lumps periods b = [] <-> periods = [].
Proof.
  destruct periods; [easy|]. rewrite schedule_loop_cons. easy.
Qed.

Lemma schedule_loop_length (self : Mortgage) (re : Q) (lumps : gmap Z Q)
    (periods : list Z) (b : Q) :
  (length (schedule_loop self re lumps periods b) <= length periods)%nat.
Proof.
  revert b. induction periods as [|p rest IH]; intros b; [cbn; lia|].
  rewrite schedule_loop_cons. destruct (Qle_bool _ 0); cbn; [lia|].
  specialize (IH (snd (schedule_step self re lumps p b))). lia.
Qed.

Lemma schedule_step_balance (self : Mortgage) (re : Q) (lumps : gmap Z Q)
    (p : Z) (b : Q) :
  Entry.balance (fst (schedule_step self re lumps p b))
  = py_max (snd (schedule_step self re lumps p b)) 0.
Proof. unfold schedule_step. now destruct (Qltb b _). Qed.

Lemma schedule_loop_row (self : Mortgage) (re : Q) (lumps : gmap Z Q)
    (periods : list Z) (b : Q) (i : nat) (row : Entry.t) :
  schedule_loop self re lumps periods b !! i = Some row ->
  exists p,
    periods !! i = Some p /\
    let bi := balance_before b (schedule_loop self re lumps periods b) i in
    row = fst (schedule_step self re lumps p bi) /\
    (S i = length (schedule_loop self re lumps periods b) <->
     snd (schedule_step self re lumps p bi) <= 0 \/ S i = length periods).
Proof.
  revert b i. induction periods as [|p rest IH]; intros b i; [easy|].
  rewrite schedule_loop_cons.
  set (row0 := fst (schedule_step self re lumps p b)).
  set (b' := snd (schedule_step self re lumps p b)).
  destruct i as [|j].
  - cbn. intros [= <-]. exists p. split; [reflexivity|]. split; [reflexivity|].
    destruct (Qle_bool b' 0) eqn:E.
    + apply Qle_bool_iff in E. cbn. tauto.
    + apply Qle_bool_gt in E. split.
      * intros H. right. f_equal.
        destruct rest; [reflexivity|].
        rewrite schedule_loop_cons in H. discriminate.
      * intros [H|H]; [change (b' <= 0) in H; lra|].
        destruct rest; [reflexivity|discriminate].
  - destruct (Qle_bool b' 0) eqn:E; [easy|].
    apply Qle_bool_gt in E. cbn [lookup list_lookup]. intros Hj.
    destruct (IH b' j Hj) as (q & Hq & Hrow & Hlast).
    exists q. split; [exact Hq|].
    assert (Hb : balance_before b
                   (row0 :: schedule_loop self re lumps rest b') (S j)
                 = balance_before b' (schedule_loop self re lumps rest b') j).
    { destruct j as [|k]; [|reflexivity].
      cbn. unfold row0. rewrite schedule_step_balance.
      apply py_max_pos. exact E. }
    cbn zeta. rewrite Hb. split; [exact Hrow|].
    cbn [length]. destruct Hlast as [H1 H2]. split.
    + intros H0. destruct H1 as [H1|H1]; [lia|now left|right; lia].
    + intros [H0|H0]; f_equal; apply H2; [now left|right; lia].
Qed.

Lemma schedule_step_capped (self : Mortgage) (re : Q) (lumps : gmap Z Q)
    (p : Z) (b : Q) :
  b < monthly_payment self - b * monthly_rate self + extra_for re lumps p ->
  schedule_step self re lumps p b
  = (Entry.mk p (b + b * monthly_rate self) (b * monthly_rate self) b 0
       (py_max (b - (b + 0)) 0),
     b - (b + 0)).
Proof.
  intros H. unfold schedule_step. apply Qltb_lt in H. now rewrite H.
Qed.

Lemma schedule_step_nominal (self : Mortgage) (re : Q) (lumps : gmap Z Q)
    (p : Z) (b : Q) :
  monthly_payment self - b * monthly_rate self + extra_for re lumps p <= b ->
  schedule_step self re lumps p b
  = (Entry.mk p (monthly_payment self + extra_for re lumps p)
       (b * monthly_rate self)
       (monthly_payment self - b * monthly_rate self)
       (extra_for re lumps p)
       (py_max (b - (monthly_payment self - b * monthly_rate self
                     + extra_for re lumps p)) 0),
     b - (monthly_payment self - b * monthly_rate self + extra_for re lumps p)).
Proof.
  intros H. unfold schedule_step. apply Qltb_ge in H. now rewrite H.
Qed.

Lemma schedule_step_period (self : Mortgage) (re : Q) (lumps : gmap Z Q)
    (p : Z) (b : Q) :
  Entry.period (fst (schedule_step self re lumps p b)) = p.
Proof. unfold schedule_step. now destruct (Qltb b _). Qed.

Lemma amortization_schedule_row (self : Mortgage) (re : Q)
    (lumps : option (gmap Z Q)) (i : nat) (row : Entry.t) :
  amortization_schedule self re lumps !! i = Some row ->
  let sched := amortization_schedule self re lumps in
  let bi := balance_before (principal self) sched i in
  let p := Z.of_nat (S i) in
  (p <= total_periods self)%Z /\
  row = fst (schedule_step self re (default ∅ lumps) p bi) /\
  (S i = length sched <->
   snd (schedule_step self re (default ∅ lumps) p bi) <= 0
   \/ p = total_periods self).
Proof.
  intros H. unfold amortization_schedule in *.
  destruct (schedule_loop_row _ _ _ _ _ _ _ H) as (p & Hp & Hrow & Hlast).
  apply py_range_lookup in Hp as [-> Hp].
  replace (1 + Z.of_nat i)%Z with (Z.of_nat (S i)) in * by lia.
  cbn zeta in *. split; [lia|]. split; [exact Hrow|].
  rewrite Hlast, py_range_length. split; (intros [?|?]; [now left|right; lia]).
Qed.

(** ** The early-payoff rule *)

(** C1 (amended). Row i of a schedule has period i + 1 and interest
    balance * rate on the balance before it.  When
    principal_component + extra > balance the row is the last one, with
    principal capped at the balance, extra 0 and payment
    balance + interest.  Otherwise principal and extra are kept and
    payment = periodic_payment + extra; in the boundary case
    principal_component + extra = balance this uncapped row is the last
    one as well. *)
Theorem early_payoff_rule (self : Mortgage) (re : Q)
    (lumps : option (gmap Z Q)) (i : nat) (row : Entry.t) :
  let sched := amortization_schedule self re lumps in
  sched !! i = Some row ->
  let b := balance_before (principal self) sched i in
  let interest := b * monthly_rate self in
  let pc := monthly_payment self - interest in
  let x := extra_for re (default ∅ lumps) (Entry.period row) in
  Entry.period row = Z.of_nat (S i) /\
  Entry.interest row = interest /\
  (b < pc + x ->
   S i = length sched /\ Entry.principal row = b /\ Entry.extra row = 0 /\
   Entry.payment row = b + interest) /\
  (pc + x <= b ->
   Entry.principal row = pc /\ Entry.extra row = x /\
   Entry.payment row = monthly_payment self + x) /\
  (pc + x == b -> S i = length sched).
Proof.
  intros sched H b interest pc x.
  destruct (amortization_schedule_row _ _ _ _ _ H) as (Hp & Hrow & Hlast).
  fold sched b in Hrow, Hlast.
  assert (Hper : Entry.period row = Z.of_nat (S i)).
  { rewrite Hrow. apply schedule_step_period. }
  unfold x. rewrite Hper. clear x.
  set (x := extra_for re (default ∅ lumps) (Z.of_nat (S i))).
  split; [reflexivity|]. split.
  { rewrite Hrow. unfold schedule_step. now destruct (Qltb b _). }
  split; [|split].
  - intros Hcap.
    rewrite (schedule_step_capped self re (default ∅ lumps) _ b Hcap)
      in Hrow, Hlast.
    cbn [fst snd] in Hrow, Hlast. subst row. cbn. repeat split.
    apply Hlast. left. lra.
  - intros Hnom.
    rewrite (schedule_step_nominal self re (default ∅ lumps) _ b Hnom)
      in Hrow.
    cbn [fst] in Hrow. subst row. cbn. repeat split.
  - intros Heq.
    assert (Hnom : pc + x <= b) by lra.
    rewrite (schedule_step_nominal self re (default ∅ lumps) _ b Hnom)
      in Hlast.
    cbn [snd] in Hlast. apply Hlast. left. fold interest pc x. lra.
Qed.

Lemma early_payoff_rule_witness :
  exists row,
    amortization_schedule (the_loan loan_two) 70 None !! 0%nat = Some row /\
    Entry.principal row = 100 /\ Entry.extra row = 0.
Proof.
  eexists. split; [vm_compute; reflexivity|].
  destruct (early_payoff_rule (the_loan loan_two) 70 None 0
              (Entry.mk 1 (100 + 100 * 0.50) (100 * 0.50) 100 0
                 (0 # 1)))
    as (_ & _ & Hcap & _).
  - vm_compute. reflexivity.
  - destruct Hcap as (_ & Hp & He & _); [vm_compute; reflexivity|].
    split; [exact Hp | exact He].
Defined.

(** C1, boundary case as the claim states it.  For Mortgage(100, 50, 2, 1)
    with recurring_extra = 60 the first period has
    principal_component + extra = 40 + 60 = 100 = balance.  The row is the
    only one of the schedule, yet its extra is 60 (not 0) and its principal
    is 40 (not capped at 100); its payment is periodic_payment + extra. *)
Lemma early_payoff_boundary_counterexample :
  let self := the_loan loan_two in
  let sched := amortization_schedule self 60 None in
  loan_two = Ok self /\
  exists row,
    sched = [row] /\
    let b := principal self in
    let pc := monthly_payment self - b * monthly_rate self in
    let x := extra_for 60 ∅ 1 in
    b <= pc + x /\
    ~ Entry.extra row == 0 /\
    ~ Entry.principal row == b /\
    Entry.payment row = monthly_payment self + x.
Proof.
  cbv zeta. split; [reflexivity|].
  eexists. split; [vm_compute; reflexivity|].
  repeat split; vm_compute; discriminate.
Qed.

(** ** Payment decomposition *)

(** Exact arithmetic.  Every row of every generated schedule satisfies
    payment = interest + principal + extra.  In a capped row (one with
    principal_component + extra > balance) this reads
    payment = balance + interest with extra = 0, and that row is the last
    one. *)
Theorem payment_decomposition (self : Mortgage) (re : Q)
    (lumps : option (gmap Z Q)) (i : nat) (row : Entry.t) :
  let sched := amortization_schedule self re lumps in
  sched !! i = Some row ->
  let b := balance_before (principal self) sched i in
  let pc := monthly_payment self - b * monthly_rate self in
  let x := extra_for re (default ∅ lumps) (Entry.period row) in
  Entry.payment row
  == Entry.interest row + Entry.principal row + Entry.extra row /\
  (b < pc + x ->
   Entry.payment row == b + Entry.interest row /\ Entry.extra row == 0 /\
   S i = length sched).
Proof.
  intros sched H b pc x.
  destruct (amortization_schedule_row _ _ _ _ _ H) as (Hp & Hrow & Hlast).
  fold sched b in Hrow, Hlast.
  assert (Hper : Entry.period row = Z.of_nat (S i)).
  { rewrite Hrow. apply schedule_step_period. }
  unfold x. rewrite Hper. clear x.
  set (x := extra_for re (default ∅ lumps) (Z.of_nat (S i))).
  destruct (Qlt_le_dec b (pc + x)) as [Hcap|Hnom].
  - rewrite (schedule_step_capped self re (default ∅ lumps) _ b Hcap)
      in Hrow, Hlast.
    cbn [fst snd] in Hrow, Hlast. subst row. cbn.
    split; [ring|]. intros _. split; [reflexivity|]. split; [reflexivity|].
    apply Hlast. left. lra.
  - rewrite (schedule_step_nominal self re (default ∅ lumps) _ b Hnom)
      in Hrow.
    cbn [fst] in Hrow. subst row. cbn.
    split; [fold x; ring|]. intros Hcap. exfalso. lra.
Qed.

(** ** The nominal amortization path *)

Section Annuity.
Variables r mp : Q.
Hypothesis r_pos : 0 < r.
Hypothesis mp_pos : 0 < mp.

Lemma nominal_step (k : nat) :
  nominal r mp (S k) * (1 + r) == nominal r mp k + mp.
Proof. cbn [nominal]. field. lra. Qed.

Lemma nominal_nonneg (j : nat) : 0 <= nominal r mp j.
Proof.
  induction j as [|k IH]; [cbn; lra|].
  pose proof (nominal_step k). nra.
Qed.

Lemma nominal_pos (k : nat) : 0 < nominal r mp (S k).
Proof.
  pose proof (nominal_step k). pose proof (nominal_nonneg k). nra.
Qed.




Lemma Qpower_succ_nat (q : Q) (k : nat) :
  q ^ Z.of_nat (S k) == q * q ^ Z.of_nat k.
Proof.
  rewrite Nat2Z.inj_succ, <- Z.add_1_l.
  rewrite Qpower_plus' by lia. now rewrite Qpower_1_r.
Qed.

Lemma nominal_closed_form (j : nat) :
  nominal r mp j * (r * (1 + r) ^ Z.of_nat j)
  == mp * ((1 + r) ^ Z.of_nat j - 1).
Proof.
  induction j as [|k IH].
  - change (nominal r mp 0) with 0.
    change ((1 + r) ^ Z.of_nat 0) with 1. ring.
  - rewrite Qpower_succ_nat. pose proof (nominal_step k) as Hs.
    set (X := (1 + r) ^ Z.of_nat k) in *.
    transitivity ((nominal r mp (S k) * (1 + r)) * (r * X)); [ring|].
    rewrite Hs.
    transitivity (nominal r mp k * (r * X) + mp * (r * X)); [ring|].
    rewrite IH. ring.
Qed.
End Annuity.

Lemma init_fields (P a y : Q) (c : Z) (m : Mortgage) :
  __init__ P a y c = Ok m ->
  let q := 1 + monthly_rate m in
  let n := total_periods m in
  ~ q ^ n - 1 == 0 /\
  monthly_payment m
  = principal m * (monthly_rate m * q ^ n) / (q ^ n - 1).
Proof.
  unfold __init__, py_div at 1.
  destruct (Qeq_bool (inject_Z c) 0); [discriminate|]. cbn [bind].
  unfold _calc_periodic_payment, py_pow.
  destruct (Qeq_bool (1 + _) 0 && _); [discriminate|]. cbn [bind].
  unfold py_div. destruct (Qeq_bool _ 0) eqn:E; [discriminate|].
  intros [= <-]. cbn. split; [|reflexivity].
  now apply Qeq_bool_neq.
Qed.

(** A loan constructed from a non-negative term has at least one period:
    with zero periods the annuity denominator vanishes. *)
Lemma constructed_total_periods (P a y : Q) (c : Z) (m : Mortgage) :
  __init__ P a y c = Ok m -> 0 <= y * inject_Z c ->
  (1 <= total_periods m)%Z.
Proof.
  intros Hinit Hy.
  destruct (init_fields _ _ _ _ _ Hinit) as [Hden _].
  destruct (init_unfold _ _ _ _ _ Hinit) as (_ & _ & Hn & _).
  cbn zeta in *.
  assert (H0 : (0 <= total_periods m)%Z).
  { rewrite Hn, py_int_floor by exact Hy.
    apply (Qfloor_resp_le 0) in Hy. exact Hy. }
  destruct (Z.eq_dec (total_periods m) 0%Z) as [E|E]; [|lia].
  exfalso. apply Hden. rewrite E. cbn. ring.
Qed.

(** What construction guarantees for a loan with positive principal and
    rate and at least one period. *)
Lemma constructed_loan (P a y : Q) (c : Z) (m : Mortgage) :
  __init__ P a y c = Ok m ->
  0 < principal m -> 0 < monthly_rate m -> (1 <= total_periods m)%Z ->
  0 < monthly_payment m /\
  principal m
  == nominal (monthly_rate m) (monthly_payment m)
       (Z.to_nat (total_periods m)).
Proof.
  intros Hinit HP Hr Hn.
  destruct (init_fields _ _ _ _ _ Hinit) as [Hden Hmp]. cbn zeta in *.
  set (rr := monthly_rate m) in *. set (PP := principal m) in *.
  set (X := (1 + rr) ^ total_periods m) in *.
  assert (HX : 1 < X) by (apply Qpower_1_lt; [lra|lia]).
  assert (Hmp' : monthly_payment m * (X - 1) == PP * (rr * X)).
  { rewrite Hmp. field. lra. }
  assert (HrX : 0 < rr * X) by (apply Qmult_lt_0_compat; lra).
  assert (HPrX : 0 < PP * (rr * X)) by (apply Qmult_lt_0_compat; lra).
  assert (Hpos : 0 < monthly_payment m).
  { destruct (Qlt_le_dec 0 (monthly_payment m)) as [H|H]; [exact H|].
    assert (monthly_payment m * (X - 1) <= 0) by nra. lra. }
  split; [exact Hpos|].
  pose proof (nominal_closed_form rr (monthly_payment m) Hr
                (Z.to_nat (total_periods m))) as Hc.
  rewrite Z2Nat.id in Hc by lia. fold X in Hc.
  set (N := nominal rr (monthly_payment m) (Z.to_nat (total_periods m))) in *.
  assert (E : (PP - N) * (rr * X) == 0) by lra.
  apply Qmult_integral in E as [E|E]; lra.
Qed.

(** ** Balances along a schedule *)

Section LoopInvariants.
Variable self : Mortgage.
Variable re : Q.
Variable lumps : gmap Z Q.

Local Abbreviation r := (monthly_rate self).
Local Abbreviation mp := (monthly_payment self).

Hypothesis r_pos : 0 < r.
Hypothesis mp_pos : 0 < mp.


End LoopInvariants.

Lemma extra_for_nonneg (re : Q) (lumps : gmap Z Q) (p : Z) :
  0 <= re -> (forall k v, lumps !! k = Some v -> 0 <= v) ->
  0 <= extra_for re lumps p.
Proof.
  intros Hre Hl. unfold extra_for.
  destruct (lumps !! p) as [v|] eqn:E; cbn.
  - specialize (Hl _ _ E). lra.
  - lra.
Qed.


(** ** Interest along a schedule *)

Lemma fold_left_Qplus_acc (xs : list Q) (acc : Q) :
  fold_left Qplus xs acc == acc + fold_left Qplus xs 0.
Proof.
  revert acc. induction xs as [|x xs IH]; intros acc; cbn [fold_left].
  - ring.
  - rewrite (IH (acc + x)), (IH (0 + x)). ring.
Qed.

Lemma py_sum_cons (x : Q) (xs : list Q) : py_sum (x :: xs) == x + py_sum xs.
Proof.
  unfold py_sum. cbn [fold_left]. rewrite fold_left_Qplus_acc. ring.
Qed.

Lemma extra_for_default (p : Z) : extra_for 0 ∅ p == 0.
Proof. unfold extra_for. rewrite lookup_empty. reflexivity. Qed.

Section Interest.
Variable self : Mortgage.
Variable re : Q.
Variable lumps : gmap Z Q.

Local Abbreviation r := (monthly_rate self).
Local Abbreviation mp := (monthly_payment self).

Hypothesis r_pos : 0 < r.
Hypothesis mp_pos : 0 < mp.

Local Abbreviation interest_of periods b :=
  (py_sum (map Entry.interest (schedule_loop self re lumps periods b))).

(** With no extras the loop follows the nominal path to the end. *)
Lemma schedule_loop_baseline (periods : list Z) (b : Q) :
  b == nominal r mp (length periods) ->
  (forall p, p ∈ periods -> extra_for re lumps p == 0) ->
  length (schedule_loop self re lumps periods b) = length periods /\
  interest_of periods b == nominal_interest r mp (length periods).
Proof.
  revert b. induction periods as [|p rest IH]; intros b Hb Hx.
  { split; reflexivity. }
  cbn [length] in *. rewrite schedule_loop_cons.
  pose proof (nominal_step r mp r_pos (length rest)) as Hs.
  pose proof (nominal_nonneg r mp r_pos mp_pos (length rest)) as Hk.
  assert (Hx0 : extra_for re lumps p == 0) by apply Hx, list_elem_of_here.
  assert (Hbr : b * r == nominal r mp (S (length rest)) * r)
    by (rewrite Hb; reflexivity).
  assert (Hnom : mp - b * r + extra_for re lumps p <= b) by lra.
  rewrite (schedule_step_nominal self re lumps p b Hnom). cbn [fst snd].
  fold r mp.
  set (b' := b - (mp - b * r + extra_for re lumps p)).
  assert (Hb' : b' == nominal r mp (length rest)) by (unfold b'; lra).
  destruct (IH b' Hb') as [IHlen IHsum].
  { intros q Hq. apply Hx. now apply list_elem_of_further. }
  destruct (Qle_bool b' 0) eqn:E.
  - apply Qle_bool_iff in E.
    destruct rest as [|q rest'].
    + split; [reflexivity|]. cbn [map length Entry.interest].
      rewrite py_sum_cons. cbn [nominal_interest]. rewrite Hbr.
      reflexivity.
    + pose proof (nominal_pos r mp r_pos mp_pos (length rest')) as Hpos.
      cbn [length] in Hb'. lra.
  - split; [cbn [length]; now rewrite IHlen|].
    cbn [map Entry.interest]. rewrite py_sum_cons, IHsum.
    cbn [nominal_interest]. rewrite Hbr. reflexivity.
Qed.

End Interest.

(** ** Summaries of generated schedules *)

Lemma py_range_lookup_lt (lo hi : Z) (i : nat) :
  (i < Z.to_nat (hi - lo))%nat ->
  py_range lo hi !! i = Some (lo + Z.of_nat i)%Z.
Proof.
  intros H. unfold py_range.
  rewrite list_lookup_fmap, lookup_seq_lt by exact H. reflexivity.
Qed.

Lemma summarize_amortization (self : Mortgage) (re : Q)
    (lumps : option (gmap Z Q)) :
  (1 <= total_periods self)%Z ->
  let sched := amortization_schedule self re lumps in
  summarize_schedule sched
  = Ok (Summary.mk (py_sum (map Entry.payment sched))
                   (py_sum (map Entry.interest sched))
                   (Z.of_nat (length sched))).
Proof.
  intros HT sched.
  assert (Hne : sched <> []) by now apply amortization_schedule_nonempty.
  destruct (summarize_schedule_nonempty sched Hne) as (row & Hlast & ->).
  do 2 f_equal.
  rewrite last_lookup in Hlast.
  destruct (amortization_schedule_row _ _ _ _ _ Hlast) as (_ & -> & _).
  rewrite schedule_step_period.
  destruct sched; [contradiction|]. cbn [length Nat.pred]. reflexivity.
Qed.

(** ** The no-extra baseline *)

(** Exact arithmetic.  For a constructed loan with positive principal and
    rate and at least one period, the schedule generated with
    recurring_extra = 0 and
    no lump sums summarizes successfully and its periods_used is exactly
    total_periods. *)
Theorem baseline_uses_all_periods (P a y : Q) (c : Z) (m : Mortgage) :
  __init__ P a y c = Ok m ->
  0 < principal m -> 0 < monthly_rate m -> (1 <= total_periods m)%Z ->
  exists s,
    summarize_schedule (amortization_schedule m 0 None) = Ok s /\
    Summary.periods_used s = total_periods m.
Proof.
  intros Hinit HP Hr Hn.
  destruct (constructed_loan _ _ _ _ _ Hinit HP Hr Hn) as [Hmp HN].
  eexists. split; [now apply summarize_amortization|].
  cbn [Summary.periods_used]. unfold amortization_schedule. cbn [default].
  destruct (schedule_loop_baseline m 0 ∅ Hr Hmp
              (py_range 1 (total_periods m + 1)) (principal m)) as [Hlen _].
  - rewrite py_range_length.
    replace (total_periods m + 1 - 1)%Z with (total_periods m) by lia.
    exact HN.
  - intros p _. apply extra_for_default.
  - rewrite Hlen, py_range_length. lia.
Qed.

(** ** Acceleration *)



(** ** Selection of the first minimum *)

Lemma py_min_from_spec {A : Type} (key : A -> Q) (items prefix : list A)
    (best0 : A) (k0 : nat) :
  prefix !! k0 = Some best0 ->
  (forall j c, prefix !! j = Some c -> key best0 <= key c) ->
  (forall j c, (j < k0)%nat -> prefix !! j = Some c -> key best0 < key c) ->
  exists k,
    (prefix ++ items) !! k = Some (py_min_from key best0 items) /\
    (forall j c, (prefix ++ items) !! j = Some c ->
                 key (py_min_from key best0 items) <= key c) /\
    (forall j c, (j < k)%nat -> (prefix ++ items) !! j = Some c ->
                 key (py_min_from key best0 items) < key c).
Proof.
  revert prefix best0 k0.
  induction items as [|item rest IH]; intros prefix best0 k0 Hk Hle Hlt.
  - exists k0. rewrite app_nil_r. cbn. auto.
  - cbn [py_min_from]. rewrite cons_middle, app_assoc.
    destruct (Qltb (key item) (key best0)) eqn:E.
    + apply Qltb_lt in E. apply (IH (prefix ++ [item]) item (length prefix)).
      * now rewrite lookup_app_r, Nat.sub_diag by lia.
      * intros j c Hj. apply lookup_app_Some in Hj as [Hj|[_ Hj]].
        -- specialize (Hle _ _ Hj). lra.
        -- apply list_lookup_singleton_Some in Hj as [_ <-]. lra.
      * intros j c Hjl Hj. rewrite lookup_app_l in Hj by exact Hjl.
        specialize (Hle _ _ Hj). lra.
    + apply Qltb_ge in E. apply (IH (prefix ++ [item]) best0 k0).
      * rewrite lookup_app_l; [exact Hk|]. now apply lookup_lt_Some in Hk.
      * intros j c Hj. apply lookup_app_Some in Hj as [Hj|[_ Hj]].
        -- now apply (Hle j).
        -- now apply list_lookup_singleton_Some in Hj as [_ <-].
      * intros j c Hjk Hj. apply (Hlt j); [exact Hjk|].
        apply lookup_lt_Some in Hk.
        rewrite lookup_app_l in Hj by lia. exact Hj.
Qed.

Lemma py_min_spec {A : Type} (key : A -> Q) (items : list A) (best : A) :
  py_min key items = Ok best ->
  exists k,
    items !! k = Some best /\
    (forall j c, items !! j = Some c -> key best <= key c) /\
    (forall j c, (j < k)%nat -> items !! j = Some c -> key best < key c).
Proof.
  destruct items as [|first rest]; [discriminate|].
  cbn [py_min]. intros [= <-].
  apply (py_min_from_spec key rest [first] first 0).
  - reflexivity.
  - intros j c Hj. apply list_lookup_singleton_Some in Hj as [_ <-]. lra.
  - intros j c Hj. lia.
Qed.

(** ** The optimizer's candidates *)

Lemma inject_Z_nonzero (z : Z) : (z <> 0)%Z -> Qeq_bool (inject_Z z) 0 = false.
Proof.
  intros H. apply not_true_is_false. intros E%Qeq_bool_iff%inject_Z_zero.
  contradiction.
Qed.

Lemma ceil_positive (rem cpy : Z) :
  (1 <= rem)%Z -> (1 <= cpy)%Z ->
  (1 <= py_ceil (inject_Z rem / inject_Z cpy))%Z.
Proof.
  intros Hrem Hcpy. unfold py_ceil.
  set (x := inject_Z rem / inject_Z cpy).
  assert (Hc : 0 < inject_Z cpy).
  { change 0 with (inject_Z 0). rewrite <- Zlt_Qlt. lia. }
  assert (Hr : 0 < inject_Z rem).
  { change 0 with (inject_Z 0). rewrite <- Zlt_Qlt. lia. }
  assert (Hx : 0 < x).
  { unfold x. apply Qlt_shift_div_l; [exact Hc|]. lra. }
  pose proof (Qle_ceiling x) as H1.
  assert (H2 : inject_Z 0 < inject_Z (Qceiling x)).
  { apply Qlt_le_trans with x; [exact Hx | exact H1]. }
  rewrite <- Zlt_Qlt in H2. lia.
Qed.

Lemma optimize_extra_candidates (self : Mortgage) (budget : Q)
    (start_period : Z) :
  (1 <= compounds_per_year self)%Z ->
  (1 <= start_period <= total_periods self)%Z ->
  exists s1 s2 s3,
    direct_summary self single_lumpsum budget start_period = Ok s1 /\
    direct_summary self uniform_monthly budget start_period = Ok s2 /\
    direct_summary self annual_lumpsum budget start_period = Ok s3 /\
    optimize_extra self budget start_period
    = py_min (fun kv => Summary.total_interest (snd kv))
        [(strategy_name single_lumpsum, s1);
         (strategy_name uniform_monthly, s2);
         (strategy_name annual_lumpsum, s3)].
Proof.
  intros Hcpy [Hlo Hhi].
  assert (HT : (1 <= total_periods self)%Z) by lia.
  unfold optimize_extra, direct_summary, strategy_schedule.
  set (rem := (total_periods self - start_period + 1)%Z).
  replace (0 <? rem)%Z with true by (symmetry; apply Z.ltb_lt; lia).
  unfold py_div.
  rewrite (inject_Z_nonzero rem) by lia.
  rewrite (inject_Z_nonzero (compounds_per_year self)) by lia.
  cbn [bind].
  rewrite (inject_Z_nonzero
             (py_ceil (inject_Z rem / inject_Z (compounds_per_year self))))
    by (pose proof (ceil_positive rem (compounds_per_year self)); lia).
  cbn [bind].
  rewrite !summarize_amortization by exact HT.
  cbn [bind app]. do 3 eexists. repeat split.
Qed.

(** ** Schedules on numerically equal inputs *)

Lemma py_max_proper (a b : Q) : a == b -> py_max a 0 == py_max b 0.
Proof.
  intros H. unfold py_max.
  destruct (Qltb a 0) eqn:Ea, (Qltb b 0) eqn:Eb; try reflexivity;
    try exact H;
    first [apply Qltb_lt in Ea | apply Qltb_ge in Ea];
    first [apply Qltb_lt in Eb | apply Qltb_ge in Eb]; lra.
Qed.

Lemma schedule_step_proper (self : Mortgage) (re1 re2 : Q)
    (l1 l2 : gmap Z Q) (p : Z) (b1 b2 : Q) :
  b1 == b2 -> extra_for re1 l1 p == extra_for re2 l2 p ->
  entry_eq (fst (schedule_step self re1 l1 p b1))
           (fst (schedule_step self re2 l2 p b2)) /\
  snd (schedule_step self re1 l1 p b1)
  == snd (schedule_step self re2 l2 p b2).
Proof.
  intros Hb Hx.
  assert (Hbr : b1 * monthly_rate self == b2 * monthly_rate self)
    by (rewrite Hb; reflexivity).
  destruct (Qlt_le_dec b1 (monthly_payment self - b1 * monthly_rate self
                           + extra_for re1 l1 p)) as [Hcap|Hnom].
  - rewrite (schedule_step_capped self re1 l1 p b1 Hcap).
    rewrite (schedule_step_capped self re2 l2 p b2) by lra.
    cbn [fst snd]. unfold entry_eq. cbn.
    split; [|lra]. split; [reflexivity|]. repeat (split; [lra|]).
    apply py_max_proper. lra.
  - rewrite (schedule_step_nominal self re1 l1 p b1 Hnom).
    rewrite (schedule_step_nominal self re2 l2 p b2) by lra.
    cbn [fst snd]. unfold entry_eq. cbn.
    split; [|lra]. split; [reflexivity|]. repeat (split; [lra|]).
    apply py_max_proper. lra.
Qed.

Lemma schedule_loop_proper (self : Mortgage) (re1 re2 : Q)
    (l1 l2 : gmap Z Q) (periods : list Z) (b1 b2 : Q) :
  b1 == b2 ->
  (forall p, p ∈ periods -> extra_for re1 l1 p == extra_for re2 l2 p) ->
  Forall2 entry_eq (schedule_loop self re1 l1 periods b1)
                   (schedule_loop self re2 l2 periods b2).
Proof.
  revert b1 b2. induction periods as [|p rest IH]; intros b1 b2 Hb Hx.
  { constructor. }
  rewrite !schedule_loop_cons.
  destruct (schedule_step_proper self re1 re2 l1 l2 p b1 b2 Hb)
    as [Hrow Hnext]; [apply Hx, list_elem_of_here|].
  constructor; [exact Hrow|].
  destruct (Qle_bool (snd (schedule_step self re1 l1 p b1)) 0) eqn:E1,
           (Qle_bool (snd (schedule_step self re2 l2 p b2)) 0) eqn:E2.
  - constructor.
  - apply Qle_bool_iff in E1. apply Qle_bool_gt in E2. lra.
  - apply Qle_bool_gt in E1. apply Qle_bool_iff in E2. lra.
  - apply IH; [exact Hnext|].
    intros q Hq. apply Hx. now apply list_elem_of_further.
Qed.

Lemma py_sum_proper (f : Entry.t -> Q) (xs ys : list Entry.t) :
  (forall a b, entry_eq a b -> f a == f b) ->
  Forall2 entry_eq xs ys -> py_sum (map f xs) == py_sum (map f ys).
Proof.
  intros Hf H. induction H as [|a b xs ys Hab _ IH]; [reflexivity|].
  cbn [map]. rewrite !py_sum_cons, IH, (Hf a b Hab). reflexivity.
Qed.

(** A schedule whose extras are all numerically zero summarizes like the
    no-extra baseline. *)
Lemma zero_extras_summary (self : Mortgage) (re : Q)
    (lumps : option (gmap Z Q)) (s base : Summary.t) :
  (1 <= total_periods self)%Z ->
  (forall p, extra_for re (default ∅ lumps) p == 0) ->
  summarize_schedule (amortization_schedule self re lumps) = Ok s ->
  summarize_schedule (amortization_schedule self 0 None) = Ok base ->
  summary_eq s base.
Proof.
  intros HT Hx. rewrite !summarize_amortization by exact HT.
  intros [= <-] [= <-].
  assert (H : Forall2 entry_eq (amortization_schedule self re lumps)
                               (amortization_schedule self 0 None)).
  { unfold amortization_schedule. apply schedule_loop_proper; [reflexivity|].
    intros p _. rewrite Hx. symmetry. apply extra_for_default. }
  unfold summary_eq. cbn. split; [|split].
  - apply py_sum_proper; [|exact H]. now intros a b (_ & ? & _).
  - apply py_sum_proper; [|exact H]. now intros a b (_ & _ & ? & _).
  - f_equal. now apply Forall2_length in H.
Qed.

Lemma annual_lumps_values (self : Mortgage) (start_period years_ : Z)
    (annual_extra : Q) (k : Z) (v : Q) :
  annual_lumps self start_period years_ annual_extra !! k = Some v ->
  v = annual_extra.
Proof.
  unfold annual_lumps.
  assert (G : forall (idxs : list Z) (d : gmap Z Q),
             (forall k v, d !! k = Some v -> v = annual_extra) ->
             forall k v,
               fold_left
                 (fun d i =>
                    let k := (start_period + i * compounds_per_year self)%Z in
                    if (k <=? total_periods self)%Z
                    then <[k := annual_extra]> d else d) idxs d !! k = Some v ->
               v = annual_extra).
  { induction idxs as [|i idxs IH]; intros d Hd k' v'; [apply Hd|].
    cbn [fold_left]. apply IH. intros k'' v''.
    destruct (_ <=? _)%Z; [|apply Hd].
    intros [[_ <-]|[_ H]]%lookup_insert_Some; [reflexivity|].
    now apply (Hd k''). }
  apply G. intros k' v'. rewrite lookup_empty. discriminate.
Qed.

Lemma direct_summary_calls (self : Mortgage) (budget : Q) (start_period : Z) :
  (1 <= compounds_per_year self)%Z ->
  (1 <= start_period <= total_periods self)%Z ->
  let rem := (total_periods self - start_period + 1)%Z in
  let years_ := py_ceil (inject_Z rem / inject_Z (compounds_per_year self)) in
  (1 <= rem)%Z /\ (1 <= years_)%Z /\
  direct_summary self single_lumpsum budget start_period
  = summarize_schedule
      (amortization_schedule self 0 (Some {[ start_period := budget ]})) /\
  direct_summary self uniform_monthly budget start_period
  = summarize_schedule
      (amortization_schedule self (budget / inject_Z rem) None) /\
  direct_summary self annual_lumpsum budget start_period
  = summarize_schedule
      (amortization_schedule self 0
         (Some (annual_lumps self start_period years_
                  (budget / inject_Z years_)))).
Proof.
  intros Hcpy [Hlo Hhi] rem years_.
  assert (Hy : (1 <= years_)%Z) by (apply ceil_positive; lia).
  split; [lia|]. split; [exact Hy|].
  unfold direct_summary, strategy_schedule, py_div. fold rem.
  rewrite (inject_Z_nonzero rem) by lia.
  rewrite (inject_Z_nonzero (compounds_per_year self)) by lia.
  cbn [bind]. fold years_.
  rewrite (inject_Z_nonzero years_) by lia.
  repeat split.
Qed.

Lemma Qdiv_zero_dividend (x d : Q) : x == 0 -> x / d == 0.
Proof. intros ->. unfold Qdiv. ring. Qed.

(** ** Optimizer correctness *)

(** C3. For a loan with compounds_per_year >= 1 and a start period in
    [1, total_periods], each of the three strategies summarizes
    successfully when generated directly, and optimize_extra returns the
    name and summary of the candidate at the first position, in the order
    single_lumpsum, uniform_monthly, annual_lumpsum, whose total_interest
    is minimal: no candidate has less interest and every earlier candidate
    has strictly more.  The returned summary is the one obtained by
    generating and summarizing that strategy directly.  When budget = 0
    every candidate equals the no-extra baseline summary and
    single_lumpsum is returned. *)
Theorem optimize_extra_selects_minimum (self : Mortgage) (budget : Q)
    (start_period : Z) :
  (1 <= compounds_per_year self)%Z ->
  (1 <= start_period <= total_periods self)%Z ->
  exists s1 s2 s3 k t best,
    let candidates :=
      [(single_lumpsum, s1); (uniform_monthly, s2); (annual_lumpsum, s3)] in
    direct_summary self single_lumpsum budget start_period = Ok s1 /\
    direct_summary self uniform_monthly budget start_period = Ok s2 /\
    direct_summary self annual_lumpsum budget start_period = Ok s3 /\
    candidates !! k = Some (t, best) /\
    optimize_extra self budget start_period = Ok (strategy_name t, best) /\
    direct_summary self t budget start_period = Ok best /\
    (forall j c, candidates !! j = Some c ->
       Summary.total_interest best <= Summary.total_interest (snd c)) /\
    (forall j c, (j < k)%nat -> candidates !! j = Some c ->
       Summary.total_interest best < Summary.total_interest (snd c)) /\
    (budget == 0 ->
     exists base,
       summarize_schedule (amortization_schedule self 0 None) = Ok base /\
       summary_eq s1 base /\ summary_eq s2 base /\ summary_eq s3 base /\
       t = single_lumpsum).
Proof.
  intros Hcpy Hs.
  assert (HT : (1 <= total_periods self)%Z) by lia.
  destruct (optimize_extra_candidates self budget start_period Hcpy Hs)
    as (s1 & s2 & s3 & H1 & H2 & H3 & Hopt).
  cbn [py_min] in Hopt.
  set (key := fun kv : string * Summary.t => Summary.total_interest (snd kv))
    in *.
  set (items := [(strategy_name single_lumpsum, s1);
                 (strategy_name uniform_monthly, s2);
                 (strategy_name annual_lumpsum, s3)]).
  destruct (py_min_spec key items (py_min_from key
              (strategy_name single_lumpsum, s1)
              [(strategy_name uniform_monthly, s2);
               (strategy_name annual_lumpsum, s3)]) eq_refl)
    as (k & Hk & Hle & Hlt).
  rewrite Hopt. clear Hopt.
  set (res := py_min_from key _ _) in *. clearbody res.
  assert (Hcand : exists t,
             [(single_lumpsum, s1); (uniform_monthly, s2);
              (annual_lumpsum, s3)] !! k = Some (t, snd res) /\
             res = (strategy_name t, snd res) /\
             direct_summary self t budget start_period = Ok (snd res)).
  { destruct k as [|[|[|k]]]; cbn in Hk; [| | |discriminate];
      injection Hk as <-; eexists; (split; [reflexivity|]); cbn; auto. }
  destruct Hcand as (t & Hcand & Hres & Hdirect).
  exists s1, s2, s3, k, t, (snd res). cbv zeta.
  split; [exact H1|]. split; [exact H2|]. split; [exact H3|].
  split; [exact Hcand|]. split; [now rewrite <- Hres|].
  split; [exact Hdirect|].
  assert (Hle' : forall j c,
             [(single_lumpsum, s1); (uniform_monthly, s2);
              (annual_lumpsum, s3)] !! j = Some c ->
             Summary.total_interest (snd res)
             <= Summary.total_interest (snd c)).
  { intros j c Hj.
    destruct j as [|[|[|j]]]; cbn in Hj; [| | |discriminate];
      injection Hj as <-.
    - exact (Hle 0%nat (strategy_name single_lumpsum, s1) eq_refl).
    - exact (Hle 1%nat (strategy_name uniform_monthly, s2) eq_refl).
    - exact (Hle 2%nat (strategy_name annual_lumpsum, s3) eq_refl). }
  assert (Hlt' : forall j c, (j < k)%nat ->
             [(single_lumpsum, s1); (uniform_monthly, s2);
              (annual_lumpsum, s3)] !! j = Some c ->
             Summary.total_interest (snd res)
             < Summary.total_interest (snd c)).
  { intros j c Hjk Hj.
    destruct j as [|[|[|j]]]; cbn in Hj; [| | |discriminate];
      injection Hj as <-.
    - exact (Hlt 0%nat (strategy_name single_lumpsum, s1) Hjk eq_refl).
    - exact (Hlt 1%nat (strategy_name uniform_monthly, s2) Hjk eq_refl).
    - exact (Hlt 2%nat (strategy_name annual_lumpsum, s3) Hjk eq_refl). }
  split; [exact Hle'|]. split; [exact Hlt'|].
  intros Hb.
  destruct (direct_summary_calls self budget start_period Hcpy Hs)
    as (Hrem & Hyears & E1 & E2 & E3).
  rewrite E1 in H1. rewrite E2 in H2. rewrite E3 in H3.
  destruct (summarize_schedule_nonempty (amortization_schedule self 0 None))
    as (row & _ & Hbase); [now apply amortization_schedule_nonempty|].
  set (base := Summary.mk _ _ _) in *.
  exists base. split; [exact Hbase|].
  assert (B1 : summary_eq s1 base).
  { eapply (zero_extras_summary self 0 (Some _)); [exact HT| |exact H1|
      exact Hbase].
    intros p. unfold extra_for. cbn [default from_option]. unfold id.
    destruct (_ !! p) as [v|] eqn:E; [|reflexivity].
    apply lookup_singleton_Some in E as [_ <-]. cbn. lra. }
  assert (B2 : summary_eq s2 base).
  { eapply (zero_extras_summary self _ None); [exact HT| |exact H2|
      exact Hbase].
    intros p. unfold extra_for. cbn [default from_option]. unfold id.
    rewrite lookup_empty. cbn.
    rewrite (Qdiv_zero_dividend budget _ Hb). reflexivity. }
  assert (B3 : summary_eq s3 base).
  { eapply (zero_extras_summary self 0 (Some _)); [exact HT| |exact H3|
      exact Hbase].
    intros p. unfold extra_for. cbn [default from_option]. unfold id.
    destruct (_ !! p) as [v|] eqn:E; [|reflexivity].
    apply annual_lumps_values in E as ->. cbn.
    rewrite (Qdiv_zero_dividend budget _ Hb). reflexivity. }
  split; [exact B1|]. split; [exact B2|]. split; [exact B3|].
  destruct B1 as (_ & I1 & _), B2 as (_ & I2 & _), B3 as (_ & I3 & _).
  destruct k as [|[|[|k]]]; cbn in Hcand; [| | |discriminate].
  - now injection Hcand as <- _.
  - injection Hcand as <- Hres2.
    specialize (Hlt' 0%nat (single_lumpsum, s1) ltac:(lia) eq_refl).
    cbn in Hlt'. rewrite <- Hres2 in Hlt'. lra.
  - injection Hcand as <- Hres3.
    specialize (Hlt' 0%nat (single_lumpsum, s1) ltac:(lia) eq_refl).
    cbn in Hlt'. rewrite <- Hres3 in Hlt'. lra.
Qed.

Lemma optimize_extra_selects_minimum_witness :
  exists t best,
    optimize_extra (the_loan loan_two) 10 1 = Ok (strategy_name t, best) /\
    direct_summary (the_loan loan_two) t 10 1 = Ok best.
Proof.
  destruct (optimize_extra_selects_minimum (the_loan loan_two) 10 1)
    as (s1 & s2 & s3 & k & t & best & _ & _ & _ & _ & Hopt & Hdirect & _).
  - vm_compute. discriminate.
  - vm_compute. split; discriminate.
  - exists t, best. split; [exact Hopt | exact Hdirect].
Defined.

(** ** The uniform strategy and the start period *)

(** C2 at Mortgage(100, 50, 2, 1), budget 10, start_period 2.
    remaining_periods is 1, so recurring_extra = 10; the schedule the
    uniform strategy generates applies that extra already in period 1,
    before start_period.  The single lump sum at period 2 costs 80 in
    interest, the uniform candidate 75, and optimize_extra returns
    uniform_monthly. *)
Lemma uniform_monthly_extra_before_start :
  let self := the_loan loan_two in
  loan_two = Ok self /\
  exists row1 row2 s1 best,
    strategy_schedule self uniform_monthly 10 2 = Ok [row1; row2] /\
    Entry.period row1 = 1%Z /\ (Entry.period row1 < 2)%Z /\
    Entry.extra row1 == 10 /\
    direct_summary self single_lumpsum 10 2 = Ok s1 /\
    Summary.total_interest s1 == 80 /\
    optimize_extra self 10 2 = Ok ("uniform_monthly"%string, best) /\
    Summary.total_interest best == 75 /\
    Summary.total_paid best == 175.
Proof.
  cbv zeta. split; [reflexivity|].
  do 4 eexists.
  split; [vm_compute; reflexivity|].
  split; [reflexivity|]. split; [reflexivity|].
  split; [vm_compute; reflexivity|].
  split; [vm_compute; reflexivity|].
  split; [vm_compute; reflexivity|].
  split; [vm_compute; reflexivity|].
  split; vm_compute; reflexivity.
Qed.

(** * Further properties of the class *)

(** ** Empty schedules *)

Lemma amortization_schedule_empty (self : Mortgage) (re : Q)
    (lumps : option (gmap Z Q)) :
  amortization_schedule self re lumps = [] <-> (total_periods self <= 0)%Z.
Proof.
  unfold amortization_schedule. rewrite schedule_loop_empty. split.
  - intros H. apply (f_equal length) in H.
    rewrite py_range_length in H. cbn in H. lia.
  - intros H. apply length_zero_iff_nil. rewrite py_range_length. lia.
Qed.

(** X3. A loan without periods (total_periods <= 0) has the empty schedule,
    whatever the extras, and summarizing it raises IndexError; with at
    least one period the schedule is non-empty and summarizing succeeds. *)
Theorem summarize_fails_iff_no_periods (self : Mortgage) (re : Q)
    (lumps : option (gmap Z Q)) :
  ((total_periods self <= 0)%Z <->
   summarize_schedule (amortization_schedule self re lumps)
   = Raise IndexError) /\
  ((1 <= total_periods self)%Z <->
   exists s,
     summarize_schedule (amortization_schedule self re lumps) = Ok s).
Proof.
  destruct (Z.le_gt_cases (total_periods self) 0) as [H|H].
  - pose proof (proj2 (amortization_schedule_empty self re lumps) H) as E.
    rewrite E. cbn. split; split; try easy; try lia.
    intros [s Hs]. discriminate.
  - rewrite summarize_amortization by lia.
    split; split; try lia; try discriminate. intros _. eexists. reflexivity.
Qed.

(** X4. On a loan without periods optimize_extra raises IndexError for
    every budget and start period: the first strategy's empty schedule is
    summarized before any division takes place. *)
Theorem optimize_extra_no_periods (self : Mortgage) (budget : Q)
    (start_period : Z) :
  (total_periods self <= 0)%Z ->
  optimize_extra self budget start_period = Raise IndexError.
Proof.
  intros H. unfold optimize_extra.
  rewrite (proj2 (amortization_schedule_empty self 0
                    (Some {[start_period := budget]})) H).
  reflexivity.
Qed.

Lemma optimize_extra_no_periods_witness :
  optimize_extra (the_loan (__init__ 100 50 (-2) 1)) 10 1 = Raise IndexError.
Proof.
  apply (optimize_extra_no_periods (the_loan (__init__ 100 50 (-2) 1)) 10 1).
  vm_compute. discriminate.
Defined.

(** ** Rows and summaries in general *)

(** X5. For a loan with at least one period and any extras, summarizing
    the generated schedule succeeds, periods_used is the number of rows,
    and it lies between 1 and total_periods. *)
Theorem periods_used_counts_rows (self : Mortgage) (re : Q)
    (lumps : option (gmap Z Q)) :
  (1 <= total_periods self)%Z ->
  exists s,
    summarize_schedule (amortization_schedule self re lumps) = Ok s /\
    Summary.periods_used s
    = Z.of_nat (length (amortization_schedule self re lumps)) /\
    (1 <= Summary.periods_used s <= total_periods self)%Z.
Proof.
  intros HT. eexists. split; [now apply summarize_amortization|].
  cbn [Summary.periods_used]. split; [reflexivity|].
  pose proof (amortization_schedule_nonempty self re lumps HT) as Hne.
  unfold amortization_schedule in *.
  pose proof (schedule_loop_length self re (default ∅ lumps)
                (py_range 1 (total_periods self + 1)) (principal self)) as Hl.
  rewrite py_range_length in Hl.
  destruct (schedule_loop _ _ _ _ _); [contradiction|]. cbn [length] in *. lia.
Qed.

Lemma periods_used_counts_rows_witness :
  exists s,
    summarize_schedule (amortization_schedule (the_loan loan_two) 60 None)
    = Ok s /\
    Summary.periods_used s = 1%Z.
Proof.
  destruct (periods_used_counts_rows (the_loan loan_two) 60 None)
    as (s & Hs & Hp & _); [vm_compute; discriminate|].
  exists s. split; [exact Hs|]. rewrite Hp. vm_compute. reflexivity.
Defined.

Lemma summarize_fails_iff_no_periods_witness :
  summarize_schedule
    (amortization_schedule (the_loan (__init__ 100 50 (-2) 1)) 0 None)
  = Raise IndexError.
Proof.
  apply (proj1 (summarize_fails_iff_no_periods
                  (the_loan (__init__ 100 50 (-2) 1)) 0 None)).
  vm_compute. discriminate.
Defined.

(** ** A start period more than a year beyond the term *)

Lemma ceil_at_most_minus_one (rem cpy : Z) :
  (1 <= cpy)%Z -> (rem <= - cpy)%Z ->
  (py_ceil (inject_Z rem / inject_Z cpy) <= -1)%Z.
Proof.
  intros Hcpy Hrem. unfold py_ceil.
  set (x := inject_Z rem / inject_Z cpy).
  assert (Hc : 0 < inject_Z cpy).
  { change 0 with (inject_Z 0). rewrite <- Zlt_Qlt. lia. }
  assert (Hr : inject_Z rem <= - inject_Z cpy).
  { rewrite <- inject_Z_opp, <- Zle_Qle. exact Hrem. }
  assert (Hx : x <= inject_Z (-1)).
  { unfold x. apply Qle_shift_div_r; [exact Hc|].
    change (inject_Z (-1)) with (-1 # 1). lra. }
  apply Qceiling_resp_le in Hx. now rewrite Qceiling_Z in Hx.
Qed.

Lemma annual_lumps_no_years (self : Mortgage) (start_period years_ : Z)
    (annual_extra : Q) :
  (years_ <= 0)%Z ->
  annual_lumps self start_period years_ annual_extra = ∅.
Proof.
  intros H. unfold annual_lumps, py_range.
  replace (Z.to_nat (years_ - 0)) with 0%nat by lia. reflexivity.
Qed.

Lemma Qltb_irrefl (x : Q) : Qltb x x = false.
Proof. apply Qltb_ge. lra. Qed.

(** X13. For a loan with at least one period and compounds_per_year >= 1,
    a start period beyond total_periods + compounds_per_year makes no
    strategy use the budget: the lump sum lies beyond the term, the
    uniform strategy is skipped and the annual mapping is empty.
    optimize_extra then returns the name single_lumpsum with exactly the
    summary of the no-extra schedule. *)
Theorem optimize_extra_start_far_beyond_term (self : Mortgage) (budget : Q)
    (start_period : Z) :
  (1 <= total_periods self)%Z -> (1 <= compounds_per_year self)%Z ->
  (total_periods self + compounds_per_year self < start_period)%Z ->
  exists base,
    summarize_schedule (amortization_schedule self 0 None) = Ok base /\
    optimize_extra self budget start_period
    = Ok ("single_lumpsum"%string, base).
Proof.
  intros HT Hcpy Hs.
  eexists. split; [now apply summarize_amortization|].
  unfold optimize_extra.
  set (rem := (total_periods self - start_period + 1)%Z).
  assert (Hsingle :
            amortization_schedule self 0 (Some {[start_period := budget]})
            = amortization_schedule self 0 None).
  { unfold amortization_schedule. apply schedule_loop_ext.
    intros p Hp%py_range_elem. cbn [default from_option]. unfold id.
    rewrite lookup_empty. apply lookup_singleton_ne. lia. }
  rewrite Hsingle. rewrite summarize_amortization by exact HT.
  cbv beta iota delta [bind].
  replace (0 <? rem)%Z with false by (symmetry; apply Z.ltb_ge; lia).
  unfold py_div.
  rewrite (inject_Z_nonzero (compounds_per_year self)) by lia.
  cbv beta iota delta [bind].
  pose proof (ceil_at_most_minus_one rem (compounds_per_year self) Hcpy
                ltac:(lia)) as Hy.
  rewrite (inject_Z_nonzero _) by lia.
  cbv beta iota delta [bind].
  rewrite annual_lumps_no_years by lia.
  change (amortization_schedule self 0 (Some ∅))
    with (amortization_schedule self 0 None).
  rewrite summarize_amortization by exact HT.
  cbv beta iota delta [bind app py_min py_min_from snd].
  cbn [Summary.total_interest]. now rewrite Qltb_irrefl.
Qed.

Lemma optimize_extra_start_far_beyond_term_witness :
  exists base,
    summarize_schedule (amortization_schedule (the_loan loan_two) 0 None)
    = Ok base /\
    optimize_extra (the_loan loan_two) 10 4
    = Ok ("single_lumpsum"%string, base).
Proof.
  apply (optimize_extra_start_far_beyond_term (the_loan loan_two) 10 4);
    vm_compute; try discriminate; reflexivity.
Defined.

(** ** The annual lump-sum mapping *)

Lemma py_range_elem_iff (lo hi p : Z) :
  p ∈ py_range lo hi <-> (lo <= p < hi)%Z.
Proof.
  split; [apply py_range_elem|].
  intros H. apply list_elem_of_lookup. exists (Z.to_nat (p - lo)).
  rewrite py_range_lookup_lt by lia. f_equal. lia.
Qed.

Lemma annual_fold_is_Some (self : Mortgage) (start_period : Z)
    (annual_extra : Q) (idxs : list Z) (d : gmap Z Q) (k : Z) :
  is_Some
    (fold_left
       (fun d i =>
          let k := (start_period + i * compounds_per_year self)%Z in
          if (k <=? total_periods self)%Z
          then <[k := annual_extra]> d else d) idxs d !! k)
  <-> is_Some (d !! k) \/
      exists i, i ∈ idxs /\
                k = (start_period + i * compounds_per_year self)%Z /\
                (k <= total_periods self)%Z.
Proof.
  revert d. induction idxs as [|i idxs IH]; intros d; cbn [fold_left].
  - split; [now left|]. intros [H|(i & Hi & _)]; [exact H|].
    now apply elem_of_nil in Hi.
  - rewrite IH. cbv zeta.
    destruct (start_period + i * compounds_per_year self
              <=? total_periods self)%Z eqn:E.
    + apply Z.leb_le in E. rewrite lookup_insert_is_Some. split.
      * intros [[H|[_ H]]|(j & Hj & Hk & Hle)].
        -- right. exists i. split; [apply list_elem_of_here|]. subst k. auto.
        -- now left.
        -- right. exists j. split; [now apply list_elem_of_further|auto].
      * intros [H|(j & Hj & Hk & Hle)].
        -- destruct (decide (start_period + i * compounds_per_year self = k)%Z);
             [left; now left|left; right; auto].
        -- apply elem_of_cons in Hj as [->|Hj].
           ++ left. left. now symmetry.
           ++ right. exists j. auto.
    + apply Z.leb_gt in E. split.
      * intros [H|(j & Hj & Hk & Hle)]; [now left|].
        right. exists j. split; [now apply list_elem_of_further|auto].
      * intros [H|(j & Hj & Hk & Hle)]; [now left|].
        apply elem_of_cons in Hj as [->|Hj]; [lia|].
        right. exists j. auto.
Qed.

(** X14. The annual mapping holds exactly the keys
    start_period + i * compounds_per_year, 0 <= i < years, that do not
    exceed total_periods, each with the value annual_extra.  For
    compounds_per_year >= 1, start_period in [1, total_periods] and years
    the ceiling computed by optimize_extra, every one of the years keys is
    within the term, so no installment is dropped. *)
Theorem annual_lumps_keys (self : Mortgage) (start_period years_ : Z)
    (annual_extra : Q) :
  (forall k v,
      annual_lumps self start_period years_ annual_extra !! k = Some v <->
      v = annual_extra /\
      exists i, (0 <= i < years_)%Z /\
                k = (start_period + i * compounds_per_year self)%Z /\
                (k <= total_periods self)%Z) /\
  ((1 <= compounds_per_year self)%Z ->
   (1 <= start_period <= total_periods self)%Z ->
   years_ = py_ceil (inject_Z (total_periods self - start_period + 1)
                     / inject_Z (compounds_per_year self)) ->
   forall i, (0 <= i < years_)%Z ->
     annual_lumps self start_period years_ annual_extra
       !! (start_period + i * compounds_per_year self)%Z
     = Some annual_extra).
Proof.
  assert (Hchar : forall k v,
      annual_lumps self start_period years_ annual_extra !! k = Some v <->
      v = annual_extra /\
      exists i, (0 <= i < years_)%Z /\
                k = (start_period + i * compounds_per_year self)%Z /\
                (k <= total_periods self)%Z).
  { intros k v. split.
    - intros H. split; [now apply annual_lumps_values in H|].
      assert (Hs : is_Some (annual_lumps self start_period years_
                              annual_extra !! k)) by now exists v.
      unfold annual_lumps in Hs. apply annual_fold_is_Some in Hs.
      destruct Hs as [[? Hs]|(i & Hi & Hk & Hle)].
      + rewrite lookup_empty in Hs. discriminate.
      + apply py_range_elem_iff in Hi. exists i. auto.
    - intros [-> (i & Hi & Hk & Hle)].
      assert (Hs : is_Some (annual_lumps self start_period years_
                              annual_extra !! k)).
      { unfold annual_lumps. apply annual_fold_is_Some. right.
        exists i. split; [now apply py_range_elem_iff|auto]. }
      destruct Hs as [v Hv]. rewrite Hv. f_equal.
      now apply annual_lumps_values in Hv. }
  split; [exact Hchar|].
  intros Hcpy [Hlo Hhi] Hy i Hi. apply Hchar. split; [reflexivity|].
  exists i. split; [exact Hi|]. split; [reflexivity|].
  set (rem := (total_periods self - start_period + 1)%Z) in *.
  set (cpy := compounds_per_year self) in *.
  pose proof (Qceiling_lt (inject_Z rem / inject_Z cpy)) as Hc.
  unfold py_ceil in Hy. rewrite <- Hy in Hc.
  assert (Hcq : 0 < inject_Z cpy).
  { change 0 with (inject_Z 0). rewrite <- Zlt_Qlt. lia. }
  assert (Hx : inject_Z rem / inject_Z cpy * inject_Z cpy == inject_Z rem).
  { field. intros E. rewrite E in Hcq. now apply Qlt_irrefl in Hcq. }
  assert (Hz : ((years_ - 1) * cpy < rem)%Z).
  { rewrite Zlt_Qlt, inject_Z_mult.
    apply (Qmult_lt_r _ _ (inject_Z cpy) Hcq) in Hc.
    now rewrite Hx in Hc. }
  assert (i * cpy <= (years_ - 1) * cpy)%Z by nia.
  lia.
Qed.

Lemma annual_lumps_keys_witness :
  annual_lumps (the_loan loan_two) 1 2 5 !! 2%Z = Some 5.
Proof.
  apply (proj2 (annual_lumps_keys (the_loan loan_two) 1 2 5)) with (i := 1%Z).
  - vm_compute. discriminate.
  - vm_compute. split; discriminate.
  - vm_compute. reflexivity.
  - lia.
Defined.

(** ** What one loop pass changes *)

Lemma schedule_step_reduction (self : Mortgage) (re : Q) (lumps : gmap Z Q)
    (p : Z) (b : Q) :
  let row := fst (schedule_step self re lumps p b) in
  let b' := snd (schedule_step self re lumps p b) in
  Entry.interest row = b * monthly_rate self /\
  Entry.principal row + Entry.extra row == b - b' /\
  Entry.payment row == Entry.interest row + (b - b').
Proof.
  unfold schedule_step. destruct (Qltb b _); cbn; split; try reflexivity;
    split; ring.
Qed.

(** ** More extra never costs more *)

Section Monotone.
Variable self : Mortgage.

Local Abbreviation r := (monthly_rate self).
Local Abbreviation mp := (monthly_payment self).

Hypothesis r_nonneg : 0 <= r.

(** The first row charges interest on the starting balance; later rows
    only exist while the balance is positive, so they add no negative
    interest. *)
Lemma schedule_loop_interest_first (re : Q) (lumps : gmap Z Q) (p : Z)
    (rest : list Z) (b : Q) :
  b * r
  <= py_sum (map Entry.interest (schedule_loop self re lumps (p :: rest) b)).
Proof.
  revert p b. induction rest as [|q rest IH]; intros p b;
    rewrite schedule_loop_cons;
    destruct (schedule_step_reduction self re lumps p b) as (Hint & _);
    cbn [map]; rewrite py_sum_cons, Hint.
  - destruct (Qle_bool _ 0); cbn; lra.
  - destruct (Qle_bool _ 0) eqn:E; [cbn; lra|].
    apply Qle_bool_gt in E.
    specialize (IH q (snd (schedule_step self re lumps p b))).
    assert (0 <= snd (schedule_step self re lumps p b) * r)
      by (apply Qmult_le_0_compat; lra).
    lra.
Qed.

Lemma schedule_loop_monotone (re1 re2 : Q) (l1 l2 : gmap Z Q)
    (periods : list Z) (b1 b2 : Q) :
  b1 <= b2 ->
  (forall p, p ∈ periods -> extra_for re2 l2 p <= extra_for re1 l1 p) ->
  (length (schedule_loop self re1 l1 periods b1)
   <= length (schedule_loop self re2 l2 periods b2))%nat /\
  py_sum (map Entry.interest (schedule_loop self re1 l1 periods b1))
  <= py_sum (map Entry.interest (schedule_loop self re2 l2 periods b2)).
Proof.
  revert b1 b2. induction periods as [|p rest IH]; intros b1 b2 Hb Hx.
  { cbn. split; [lia|lra]. }
  assert (Hx0 : extra_for re2 l2 p <= extra_for re1 l1 p)
    by apply Hx, list_elem_of_here.
  assert (Hbr : b1 * r <= b2 * r) by (apply Qmult_le_compat_r; lra).
  pose proof (schedule_loop_interest_first re2 l2 p rest b2) as Hfirst.
  rewrite schedule_loop_cons.
  destruct (schedule_step_reduction self re1 l1 p b1) as (Hint1 & _).
  cbn [map length]. rewrite py_sum_cons, Hint1.
  destruct (Qle_bool (snd (schedule_step self re1 l1 p b1)) 0) eqn:E1.
  { change (py_sum (map Entry.interest [])) with 0.
    rewrite schedule_loop_cons in *. cbn [length]. split; [lia|lra]. }
  apply Qle_bool_gt in E1.
  destruct (Qlt_le_dec b1 (mp - b1 * r + extra_for re1 l1 p)) as [Hc1|Hn1].
  { rewrite (schedule_step_capped self re1 l1 p b1 Hc1) in E1.
    cbn [snd] in E1. lra. }
  assert (Hn2 : mp - b2 * r + extra_for re2 l2 p <= b2) by lra.
  rewrite schedule_loop_cons.
  destruct (schedule_step_reduction self re2 l2 p b2) as (Hint2 & _).
  cbn [map length]. rewrite py_sum_cons, Hint2.
  rewrite (schedule_step_nominal self re1 l1 p b1 Hn1) in *.
  rewrite (schedule_step_nominal self re2 l2 p b2 Hn2) in *.
  cbn [fst snd] in *.
  set (b1' := b1 - (mp - b1 * r + extra_for re1 l1 p)) in *.
  set (b2' := b2 - (mp - b2 * r + extra_for re2 l2 p)) in *.
  assert (Hb' : b1' <= b2') by (unfold b1', b2'; lra).
  replace (Qle_bool b2' 0) with false
    by (symmetry; apply Qle_bool_gt; lra).
  destruct (IH b1' b2' Hb') as [IHlen IHsum].
  { intros q Hq. apply Hx. now apply list_elem_of_further. }
  split; [lia|lra].
Qed.
End Monotone.

Lemma extra_for_singleton_nonneg (budget : Q) (k p : Z) :
  0 <= budget -> 0 <= extra_for 0 {[ k := budget ]} p.
Proof.
  intros H. apply extra_for_nonneg; [lra|].
  intros k' v [_ <-]%lookup_singleton_Some. exact H.
Qed.

Lemma Qdiv_nonneg (x : Q) (z : Z) : 0 <= x -> (1 <= z)%Z -> 0 <= x / inject_Z z.
Proof.
  intros Hx Hz. apply Qle_shift_div_l; [|lra].
  change 0 with (inject_Z 0). rewrite <- Zlt_Qlt. lia.
Qed.

(** X11. For a loan with a non-negative rate and at least one period,
    raising the extra of every period (recurring plus lump sum) never
    raises the total interest and never lengthens the schedule. *)
Theorem more_extra_never_costs_more (self : Mortgage) (re1 re2 : Q)
    (l1 l2 : gmap Z Q) :
  0 <= monthly_rate self -> (1 <= total_periods self)%Z ->
  (forall p, extra_for re2 l2 p <= extra_for re1 l1 p) ->
  exists s1 s2,
    summarize_schedule (amortization_schedule self re1 (Some l1)) = Ok s1 /\
    summarize_schedule (amortization_schedule self re2 (Some l2)) = Ok s2 /\
    Summary.total_interest s1 <= Summary.total_interest s2 /\
    (Summary.periods_used s1 <= Summary.periods_used s2)%Z.
Proof.
  intros Hr HT Hx. do 2 eexists.
  split; [now apply summarize_amortization|].
  split; [now apply summarize_amortization|].
  cbn [Summary.total_interest Summary.periods_used].
  unfold amortization_schedule.
  change (default ∅ (Some l1)) with l1. change (default ∅ (Some l2)) with l2.
  destruct (schedule_loop_monotone self Hr re1 re2 l1 l2
              (py_range 1 (total_periods self + 1))
              (principal self) (principal self)) as [Hlen Hsum];
    [lra|intros p _; apply Hx|].
  split; [exact Hsum|lia].
Qed.

Lemma more_extra_never_costs_more_witness :
  exists s1 s2,
    summarize_schedule (amortization_schedule (the_loan loan_two) 10 (Some ∅))
    = Ok s1 /\
    summarize_schedule (amortization_schedule (the_loan loan_two) 5 (Some ∅))
    = Ok s2 /\
    Summary.total_interest s1 <= Summary.total_interest s2.
Proof.
  destruct (more_extra_never_costs_more (the_loan loan_two) 10 5 ∅ ∅)
    as (s1 & s2 & H1 & H2 & Hi & _).
  - vm_compute. discriminate.
  - vm_compute. discriminate.
  - intros p. unfold extra_for. rewrite lookup_empty. vm_compute. discriminate.
  - exists s1, s2. auto.
Defined.

(** X16. For a loan with a non-negative rate and at least one period, the
    total interest of every schedule is at least the first period's
    interest principal * rate, whatever the extras. *)
Theorem first_period_interest_is_due (self : Mortgage) (re : Q)
    (lumps : option (gmap Z Q)) :
  0 <= monthly_rate self -> (1 <= total_periods self)%Z ->
  exists s,
    summarize_schedule (amortization_schedule self re lumps) = Ok s /\
    principal self * monthly_rate self <= Summary.total_interest s.
Proof.
  intros Hr HT. eexists. split; [now apply summarize_amortization|].
  cbn [Summary.total_interest]. unfold amortization_schedule.
  rewrite py_range_cons by lia.
  now apply schedule_loop_interest_first.
Qed.

Lemma first_period_interest_is_due_witness :
  exists s,
    summarize_schedule
      (amortization_schedule (the_loan loan_two) 0 (Some {[ 1%Z := 1000 ]}))
    = Ok s /\
    principal (the_loan loan_two) * monthly_rate (the_loan loan_two)
    <= Summary.total_interest s.
Proof.
  apply (first_period_interest_is_due (the_loan loan_two) 0
           (Some {[ 1%Z := 1000 ]})); vm_compute; discriminate.
Defined.

Lemma nonneg_extras_vs_baseline (self : Mortgage) (re : Q)
    (lumps : option (gmap Z Q)) (s base : Summary.t) :
  0 <= monthly_rate self -> (1 <= total_periods self)%Z ->
  (forall p, 0 <= extra_for re (default ∅ lumps) p) ->
  summarize_schedule (amortization_schedule self re lumps) = Ok s ->
  summarize_schedule (amortization_schedule self 0 None) = Ok base ->
  Summary.total_interest s <= Summary.total_interest base /\
  (Summary.periods_used s <= Summary.periods_used base)%Z.
Proof.
  intros Hr HT Hx. rewrite !summarize_amortization by exact HT.
  intros [= <-] [= <-].
  cbn [Summary.total_interest Summary.periods_used].
  unfold amortization_schedule.
  destruct (schedule_loop_monotone self Hr re 0 (default ∅ lumps)
              (default ∅ None)
              (py_range 1 (total_periods self + 1))
              (principal self) (principal self)) as [Hlen Hsum].
  - lra.
  - intros p _. rewrite extra_for_default. apply Hx.
  - split; [exact Hsum|lia].
Qed.

(** X12. For a loan with a non-negative rate, compounds_per_year >= 1, a
    start period in [1, total_periods] and a non-negative budget,
    optimize_extra succeeds and the summary it returns has at most the
    total interest and at most the periods_used of the no-extra
    schedule. *)
Theorem optimize_extra_not_worse_than_baseline (self : Mortgage) (budget : Q)
    (start_period : Z) :
  0 <= monthly_rate self -> (1 <= compounds_per_year self)%Z ->
  (1 <= start_period <= total_periods self)%Z -> 0 <= budget ->
  exists name best base,
    optimize_extra self budget start_period = Ok (name, best) /\
    summarize_schedule (amortization_schedule self 0 None) = Ok base /\
    Summary.total_interest best <= Summary.total_interest base /\
    (Summary.periods_used best <= Summary.periods_used base)%Z.
Proof.
  intros Hr Hcpy Hs Hb.
  assert (HT : (1 <= total_periods self)%Z) by lia.
  destruct (optimize_extra_candidates self budget start_period Hcpy Hs)
    as (s1 & s2 & s3 & H1 & H2 & H3 & Hopt).
  destruct (direct_summary_calls self budget start_period Hcpy Hs)
    as (Hrem & Hyears & E1 & E2 & E3).
  rewrite E1 in H1. rewrite E2 in H2. rewrite E3 in H3.
  destruct (summarize_schedule_nonempty (amortization_schedule self 0 None))
    as (row & _ & Hbase); [now apply amortization_schedule_nonempty|].
  set (base := Summary.mk _ _ _) in Hbase.
  assert (B1 : Summary.total_interest s1 <= Summary.total_interest base /\
               (Summary.periods_used s1 <= Summary.periods_used base)%Z).
  { eapply (nonneg_extras_vs_baseline self 0 (Some _));
      [exact Hr|exact HT| |exact H1|exact Hbase].
    intros p. now apply extra_for_singleton_nonneg. }
  assert (B2 : Summary.total_interest s2 <= Summary.total_interest base /\
               (Summary.periods_used s2 <= Summary.periods_used base)%Z).
  { eapply (nonneg_extras_vs_baseline self _ None);
      [exact Hr|exact HT| |exact H2|exact Hbase].
    intros p. apply extra_for_nonneg; [now apply Qdiv_nonneg|].
    intros k v H. cbn in H. rewrite lookup_empty in H. discriminate. }
  assert (B3 : Summary.total_interest s3 <= Summary.total_interest base /\
               (Summary.periods_used s3 <= Summary.periods_used base)%Z).
  { eapply (nonneg_extras_vs_baseline self 0 (Some _));
      [exact Hr|exact HT| |exact H3|exact Hbase].
    intros p. apply extra_for_nonneg; [lra|].
    intros k v H. cbn in H. apply annual_lumps_values in H as ->.
    now apply Qdiv_nonneg. }
  cbn [py_min] in Hopt.
  set (key := fun kv : string * Summary.t => Summary.total_interest (snd kv))
    in *.
  destruct (py_min_spec key
              [(strategy_name single_lumpsum, s1);
               (strategy_name uniform_monthly, s2);
               (strategy_name annual_lumpsum, s3)]
              (py_min_from key (strategy_name single_lumpsum, s1)
                 [(strategy_name uniform_monthly, s2);
                  (strategy_name annual_lumpsum, s3)]) eq_refl)
    as (k & Hk & _).
  set (res := py_min_from key _ _) in *. clearbody res.
  exists (fst res), (snd res), base.
  split; [rewrite Hopt; now destruct res|]. split; [exact Hbase|].
  destruct k as [|[|[|k]]]; cbn in Hk; [| | |discriminate];
    injection Hk as <-; assumption.
Qed.

Lemma optimize_extra_not_worse_than_baseline_witness :
  exists name best base,
    optimize_extra (the_loan loan_two) 10 2 = Ok (name, best) /\
    summarize_schedule (amortization_schedule (the_loan loan_two) 0 None)
    = Ok base /\
    Summary.total_interest best <= Summary.total_interest base.
Proof.
  destruct (optimize_extra_not_worse_than_baseline (the_loan loan_two) 10 2)
    as (name & best & base & Ho & Hb & Hi & _).
  - vm_compute. discriminate.
  - vm_compute. discriminate.
  - vm_compute. split; discriminate.
  - vm_compute. discriminate.
  - exists name, best, base. auto.
Defined.

(** ** Which start periods make optimize_extra raise *)

Lemma optimize_extra_in_term (self : Mortgage) (budget : Q) (start_period : Z) :
  (1 <= total_periods self)%Z -> (1 <= compounds_per_year self)%Z ->
  (start_period <= total_periods self)%Z ->
  exists res, optimize_extra self budget start_period = Ok res.
Proof.
  intros HT Hcpy Hs. unfold optimize_extra.
  set (rem := (total_periods self - start_period + 1)%Z).
  replace (0 <? rem)%Z with true by (symmetry; apply Z.ltb_lt; lia).
  unfold py_div.
  rewrite (inject_Z_nonzero rem) by lia.
  rewrite (inject_Z_nonzero (compounds_per_year self)) by lia.
  cbv beta iota delta [bind].
  rewrite (inject_Z_nonzero
             (py_ceil (inject_Z rem / inject_Z (compounds_per_year self))))
    by (pose proof (ceil_positive rem (compounds_per_year self)); lia).
  rewrite !summarize_amortization by exact HT.
  cbv beta iota delta [bind app py_min]. eexists. reflexivity.
Qed.

Lemma optimize_extra_in_gap (self : Mortgage) (budget : Q) (start_period : Z) :
  (1 <= total_periods self)%Z ->
  (total_periods self < start_period
   <= total_periods self + compounds_per_year self)%Z ->
  optimize_extra self budget start_period = Raise ZeroDivisionError.
Proof.
  intros HT [Hlo Hhi]. unfold optimize_extra.
  rewrite summarize_amortization by exact HT.
  cbv beta iota delta [bind].
  replace (0 <? total_periods self - start_period + 1)%Z with false
    by (symmetry; apply Z.ltb_ge; lia).
  unfold py_div at 1.
  rewrite (inject_Z_nonzero (compounds_per_year self)) by lia.
  cbv beta iota delta [bind]. rewrite ceil_unit_interval by lia. reflexivity.
Qed.

Lemma optimize_extra_past_gap (self : Mortgage) (budget : Q) (start_period : Z) :
  (1 <= total_periods self)%Z -> (1 <= compounds_per_year self)%Z ->
  (total_periods self + compounds_per_year self < start_period)%Z ->
  exists res, optimize_extra self budget start_period = Ok res.
Proof.
  intros HT Hcpy Hs. unfold optimize_extra.
  set (rem := (total_periods self - start_period + 1)%Z).
  rewrite summarize_amortization by exact HT.
  cbv beta iota delta [bind].
  replace (0 <? rem)%Z with false by (symmetry; apply Z.ltb_ge; lia).
  unfold py_div.
  rewrite (inject_Z_nonzero (compounds_per_year self)) by lia.
  cbv beta iota delta [bind].
  pose proof (ceil_at_most_minus_one rem (compounds_per_year self) Hcpy
                ltac:(lia)) as Hy.
  rewrite (inject_Z_nonzero _) by lia.
  cbv beta iota delta [bind].
  rewrite summarize_amortization by exact HT.
  cbv beta iota delta [bind app py_min]. eexists. reflexivity.
Qed.

(** X15. For a loan with at least one period and compounds_per_year >= 1,
    optimize_extra raises exactly for the start periods in the gap
    total_periods < start_period <= total_periods + compounds_per_year,
    and then it raises ZeroDivisionError; every other start period,
    including 0 and negative ones, returns a result. *)
Theorem optimize_extra_raises_iff (self : Mortgage) (budget : Q)
    (start_period : Z) :
  (1 <= total_periods self)%Z -> (1 <= compounds_per_year self)%Z ->
  ((total_periods self < start_period
    <= total_periods self + compounds_per_year self)%Z <->
   optimize_extra self budget start_period = Raise ZeroDivisionError) /\
  ((start_period <= total_periods self \/
    total_periods self + compounds_per_year self < start_period)%Z <->
   exists res, optimize_extra self budget start_period = Ok res).
Proof.
  intros HT Hcpy.
  destruct (Z.le_gt_cases start_period (total_periods self)) as [H1|H1].
  - destruct (optimize_extra_in_term self budget start_period HT Hcpy H1)
      as [res Hres].
    rewrite Hres. split; split.
    + intros [? ?]. lia.
    + discriminate.
    + intros _. now exists res.
    + intros _. now left.
  - destruct (Z.le_gt_cases start_period
                (total_periods self + compounds_per_year self)) as [H2|H2].
    + rewrite (optimize_extra_in_gap self budget start_period HT) by lia.
      split; split.
      * reflexivity.
      * intros _. lia.
      * intros [?|?]; lia.
      * intros [res Hres]. discriminate.
    + destruct (optimize_extra_past_gap self budget start_period HT Hcpy)
        as [res Hres]; [lia|].
      rewrite Hres. split; split.
      * intros [? ?]. lia.
      * discriminate.
      * intros _. now exists res.
      * intros _. now right.
Qed.

Lemma optimize_extra_raises_iff_witness :
  (exists res, optimize_extra (the_loan loan_two) 10 0 = Ok res) /\
  optimize_extra (the_loan loan_two) 10 3 = Raise ZeroDivisionError.
Proof.
  split.
  - apply (proj2 (optimize_extra_raises_iff (the_loan loan_two) 10 0
                    ltac:(vm_compute; discriminate)
                    ltac:(vm_compute; discriminate))).
    left. vm_compute. discriminate.
  - apply (proj1 (optimize_extra_raises_iff (the_loan loan_two) 10 3
                    ltac:(vm_compute; discriminate)
                    ltac:(vm_compute; discriminate))).
    vm_compute. split; [reflexivity|discriminate].
Defined.

(** ** No look-ahead *)

Lemma schedule_loop_take_ext (self : Mortgage) (re : Q) (l1 l2 : gmap Z Q)
    (periods : list Z) (b : Q) (n : nat) :
  (forall i p, (i < n)%nat -> periods !! i = Some p -> l1 !! p = l2 !! p) ->
  take n (schedule_loop self re l1 periods b)
  = take n (schedule_loop self re l2 periods b).
Proof.
  revert b n. induction periods as [|p rest IH]; intros b n Hl; [reflexivity|].
  destruct n as [|n]; [reflexivity|].
  cbn [schedule_loop]. unfold schedule_step, extra_for.
  rewrite (Hl 0%nat p) by (cbn; (lia || reflexivity)).
  destruct (Qltb b _); cbn [take]; (destruct (Qle_bool _ 0); [reflexivity|]);
    f_equal; apply IH; intros i q Hi Hq; apply (Hl (S i) q); (lia || exact Hq).
Qed.

(** X17. The rows of the periods before k do not depend on the lump sums
    keyed at k or later: two mappings that agree on all keys below k give
    schedules with the same first k - 1 rows. *)
Theorem rows_before_lump_unchanged (self : Mortgage) (re : Q)
    (l1 l2 : gmap Z Q) (k : Z) :
  (forall p, (p < k)%Z -> l1 !! p = l2 !! p) ->
  take (Z.to_nat (k - 1)) (amortization_schedule self re (Some l1))
  = take (Z.to_nat (k - 1)) (amortization_schedule self re (Some l2)).
Proof.
  intros Hl. unfold amortization_schedule.
  change (default ∅ (Some l1)) with l1. change (default ∅ (Some l2)) with l2.
  apply schedule_loop_take_ext. intros i p Hi Hp.
  apply py_range_lookup in Hp as [-> _]. apply Hl. lia.
Qed.

Lemma rows_before_lump_unchanged_witness :
  take 1 (amortization_schedule (the_loan loan_two) 0 (Some {[ 2%Z := 10 ]}))
  = take 1 (amortization_schedule (the_loan loan_two) 0 (Some ∅)).
Proof.
  apply (rows_before_lump_unchanged (the_loan loan_two) 0
           {[ 2%Z := 10 ]} ∅ 2).
  intros p Hp. rewrite lookup_empty. apply lookup_singleton_ne. lia.
Defined.

(** * Properties over binary64 *)

(** ** Comparisons and the clamp *)

Lemma F64_leb_false_ltb (x y : F64.float) :
  F64.leb x y = false -> F64.ltb x y = false.
Proof.
  unfold F64.leb, F64.ltb, SFleb, SFltb.
  destruct (SFcompare x y) as [[]|]; easy.
Qed.

Lemma F64_py_max_continue (b : F64.float) :
  F64.leb b F64.zero = false -> F64.py_max b F64.zero = b.
Proof.
  intros H. unfold F64.py_max. now rewrite (F64_leb_false_ltb _ _ H).
Qed.

Lemma F64_py_max_not_negative (b : F64.float) :
  F64.ltb (F64.py_max b F64.zero) F64.zero = false.
Proof.
  unfold F64.py_max. destruct (F64.ltb b F64.zero) eqn:E; [reflexivity|exact E].
Qed.


Lemma F64_sub_self (b : F64.float) :
  b <> S754_infinity true -> b <> S754_infinity false -> b <> S754_nan ->
  F64.leb (F64.sub b (F64.add b F64.zero)) F64.zero = true.
Proof.
  intros Hn Hp Hnan. destruct b as [[]|[]| |s m e]; try congruence;
    try reflexivity.
  change (F64.add (S754_finite s m e) F64.zero) with (S754_finite s m e).
  unfold F64.sub, SFsub. rewrite Z.sub_diag. reflexivity.
Qed.

(** ** Generated rows *)

Lemma F64_schedule_loop_cons (self : F64.Mortgage) (re : F64.float)
    (lumps : gmap Z F64.float) (p : Z) (rest : list Z) (b : F64.float) :
  F64.schedule_loop self re lumps (p :: rest) b
  = fst (F64.schedule_step self re lumps p b)
    :: (if F64.leb (snd (F64.schedule_step self re lumps p b)) F64.zero
        then []
        else F64.schedule_loop self re lumps rest
               (snd (F64.schedule_step self re lumps p b))).
Proof.
  cbn [F64.schedule_loop]. now destruct (F64.schedule_step self re lumps p b).
Qed.

Lemma F64_schedule_step_balance (self : F64.Mortgage) (re : F64.float)
    (lumps : gmap Z F64.float) (p : Z) (b : F64.float) :
  F64.Entry.balance (fst (F64.schedule_step self re lumps p b))
  = F64.py_max (snd (F64.schedule_step self re lumps p b)) F64.zero.
Proof. unfold F64.schedule_step. now destruct (F64.ltb b _). Qed.

Lemma F64_schedule_step_period (self : F64.Mortgage) (re : F64.float)
    (lumps : gmap Z F64.float) (p : Z) (b : F64.float) :
  F64.Entry.period (fst (F64.schedule_step self re lumps p b)) = p.
Proof. unfold F64.schedule_step. now destruct (F64.ltb b _). Qed.

Lemma F64_schedule_loop_length (self : F64.Mortgage) (re : F64.float)
    (lumps : gmap Z F64.float) (periods : list Z) (b : F64.float) :
  (length (F64.schedule_loop self re lumps periods b) <= length periods)%nat.
Proof.
  revert b. induction periods as [|p rest IH]; intros b; [cbn; lia|].
  rewrite F64_schedule_loop_cons. destruct (F64.leb _ F64.zero); cbn; [lia|].
  specialize (IH (snd (F64.schedule_step self re lumps p b))). lia.
Qed.

Lemma F64_schedule_loop_row (self : F64.Mortgage) (re : F64.float)
    (lumps : gmap Z F64.float) (periods : list Z) (b : F64.float) (i : nat)
    (row : F64.Entry.t) :
  F64.schedule_loop self re lumps periods b !! i = Some row ->
  exists p,
    periods !! i = Some p /\
    let bi :=
      F64.balance_before b (F64.schedule_loop self re lumps periods b) i in
    row = fst (F64.schedule_step self re lumps p bi) /\
    (S i = length (F64.schedule_loop self re lumps periods b) <->
     F64.leb (snd (F64.schedule_step self re lumps p bi)) F64.zero = true
     \/ S i = length periods).
Proof.
  revert b i. induction periods as [|p rest IH]; intros b i; [easy|].
  rewrite F64_schedule_loop_cons.
  set (row0 := fst (F64.schedule_step self re lumps p b)).
  set (b' := snd (F64.schedule_step self re lumps p b)).
  destruct i as [|j].
  - cbn. intros [= <-]. exists p. split; [reflexivity|]. split; [reflexivity|].
    destruct (F64.leb b' F64.zero) eqn:E.
    + cbn. tauto.
    + split.
      * intros H. right. f_equal.
        destruct rest; [reflexivity|].
        rewrite F64_schedule_loop_cons in H. discriminate.
      * intros [H|H]; [change (F64.leb b' F64.zero = true) in H; congruence|].
        destruct rest; [reflexivity|discriminate].
  - destruct (F64.leb b' F64.zero) eqn:E; [easy|].
    cbn [lookup list_lookup]. intros Hj.
    destruct (IH b' j Hj) as (q & Hq & Hrow & Hlast).
    exists q. split; [exact Hq|].
    assert (Hb : F64.balance_before b
                   (row0 :: F64.schedule_loop self re lumps rest b') (S j)
                 = F64.balance_before b'
                     (F64.schedule_loop self re lumps rest b') j).
    { destruct j as [|k]; [|reflexivity].
      cbn. unfold row0. rewrite F64_schedule_step_balance.
      apply F64_py_max_continue. exact E. }
    cbn zeta. rewrite Hb. split; [exact Hrow|].
    cbn [length]. destruct Hlast as [H1 H2]. split.
    + intros H0. destruct H1 as [H1|H1]; [lia|now left|right; lia].
    + intros [H0|H0]; f_equal; apply H2; [now left|right; lia].
Qed.

Lemma F64_amortization_schedule_row (self : F64.Mortgage) (re : F64.float)
    (lumps : option (gmap Z F64.float)) (i : nat) (row : F64.Entry.t) :
  F64.amortization_schedule self re lumps !! i = Some row ->
  let sched := F64.amortization_schedule self re lumps in
  let bi := F64.balance_before (F64.principal self) sched i in
  let p := Z.of_nat (S i) in
  (p <= F64.total_periods self)%Z /\
  row = fst (F64.schedule_step self re (default ∅ lumps) p bi) /\
  (S i = length sched <->
   F64.leb (snd (F64.schedule_step self re (default ∅ lumps) p bi)) F64.zero
   = true
   \/ p = F64.total_periods self).
Proof.
  intros H. unfold F64.amortization_schedule in *.
  destruct (F64_schedule_loop_row _ _ _ _ _ _ _ H) as (p & Hp & Hrow & Hlast).
  apply py_range_lookup in Hp as [-> Hp].
  replace (1 + Z.of_nat i)%Z with (Z.of_nat (S i)) in * by lia.
  cbn zeta in *. split; [lia|]. split; [exact Hrow|].
  rewrite Hlast, py_range_length. split; (intros [?|?]; [now left|right; lia]).
Qed.

Lemma F64_amortization_schedule_nonempty (self : F64.Mortgage)
    (re : F64.float) (lumps : option (gmap Z F64.float)) :
  (1 <= F64.total_periods self)%Z ->
  F64.amortization_schedule self re lumps <> [].
Proof.
  intros H. unfold F64.amortization_schedule.
  rewrite py_range_cons by lia. now rewrite F64_schedule_loop_cons.
Qed.

(** ** Rows in binary64 *)

(** C4 (amended). In binary64 every row is formed by single rounded
    operations on the balance b before it: interest = b * rate; in a
    capped row (b < principal_component + extra) principal = b, extra = 0.0
    and payment = b + interest, and that row is the last one unless b is
    minus infinity; in any other row principal = periodic_payment -
    interest, extra is the requested extra and payment =
    periodic_payment + extra.  With exact arithmetic these rows satisfy
    payment = interest + principal + extra. *)
Theorem payment_decomposition_rounded :
  (forall (self : F64.Mortgage) (re : F64.float)
          (lumps : option (gmap Z F64.float)) (i : nat) (row : F64.Entry.t),
      let sched := F64.amortization_schedule self re lumps in
      sched !! i = Some row ->
      let b := F64.balance_before (F64.principal self) sched i in
      let interest := F64.mul b (F64.monthly_rate self) in
      let pc := F64.sub (F64.monthly_payment self) interest in
      let x := F64.extra_for re (default ∅ lumps) (F64.Entry.period row) in
      F64.Entry.interest row = interest /\
      (F64.ltb b (F64.add pc x) = true ->
       F64.Entry.principal row = b /\ F64.Entry.extra row = F64.zero /\
       F64.Entry.payment row = F64.add b interest /\
       (b <> S754_infinity true -> S i = length sched)) /\
      (F64.ltb b (F64.add pc x) = false ->
       F64.Entry.principal row = pc /\ F64.Entry.extra row = x /\
       F64.Entry.payment row = F64.add (F64.monthly_payment self) x)) /\
  (forall (self : Mortgage) (re : Q) (lumps : option (gmap Z Q)) (i : nat)
          (row : Entry.t),
      amortization_schedule self re lumps !! i = Some row ->
      Entry.payment row
      == Entry.interest row + Entry.principal row + Entry.extra row).
Proof.
  split.
  - intros self re lumps i row sched H b interest pc x.
    destruct (F64_amortization_schedule_row _ _ _ _ _ H) as (Hp & Hrow & Hlast).
    fold sched b in Hrow, Hlast.
    assert (Hper : F64.Entry.period row = Z.of_nat (S i)).
    { rewrite Hrow. apply F64_schedule_step_period. }
    unfold x. rewrite Hper. clear x.
    set (x := F64.extra_for re (default ∅ lumps) (Z.of_nat (S i))).
    unfold F64.schedule_step in Hrow, Hlast. fold interest pc x in Hrow, Hlast.
    split; [rewrite Hrow; now destruct (F64.ltb b _)|]. split.
    + intros Hcap. rewrite Hcap in Hrow, Hlast. cbn [fst snd] in Hrow, Hlast.
      subst row. cbn. repeat split.
      intros Hb. apply Hlast. left. apply F64_sub_self; [exact Hb| |].
      * intros ->. now destruct (F64.add pc x) as [[]|[]| |[]].
      * intros ->. discriminate.
    + intros Hnom. rewrite Hnom in Hrow. cbn [fst] in Hrow.
      subst row. cbn. repeat split.
  - intros self re lumps i row H.
    exact (proj1 (payment_decomposition self re lumps i row H)).
Qed.

Lemma payment_decomposition_rounded_witness :
  exists row,
    F64.amortization_schedule
      (F64.the_loan (F64.__init__ F64.pow_rounded (F64.of_Z 100) (F64.of_Z 50)
                       (F64.of_Z 2) 1))
      (F64.of_Z 70) None !! 0%nat = Some row /\
    F64.Entry.principal row = F64.of_Z 100 /\
    F64.Entry.extra row = F64.zero.
Proof.
  eexists. split; [vm_compute; reflexivity|].
  destruct (proj1 payment_decomposition_rounded
              (F64.the_loan (F64.__init__ F64.pow_rounded (F64.of_Z 100)
                               (F64.of_Z 50) (F64.of_Z 2) 1))
              (F64.of_Z 70) None 0%nat
              (F64.Entry.mk 1 (F64.of_Z 150) (F64.of_Z 50) (F64.of_Z 100)
                 F64.zero F64.zero))
    as (_ & Hcap & _).
  - vm_compute. reflexivity.
  - destruct Hcap as (Hp & He & _); [vm_compute; reflexivity|].
    split; [exact Hp | exact He].
Defined.

(** C4 as the claim states it.  Mortgage(100.4, 25, 3, 1) has rate 0.25,
    (1 + r) ** 3 = 1.953125 exactly and payment 51.434426229508198.  Its
    second row has interest 18.516393442622952, principal
    32.918032786885249 and extra 0.0: their float sum is
    51.434426229508205, and their exact sum differs from the payment as
    well. *)
Lemma payment_decomposition_counterexample :
  exists m row,
    F64.__init__ F64.pow_rounded (F64.dec 1004 1) (F64.of_Z 25) (F64.of_Z 3) 1
    = Ok m /\
    F64.amortization_schedule m F64.zero None !! 1%nat = Some row /\
    F64.eqb (F64.Entry.payment row)
      (F64.add (F64.add (F64.Entry.interest row) (F64.Entry.principal row))
               (F64.Entry.extra row)) = false /\
    ~ F64.to_Q (F64.Entry.payment row)
      == F64.to_Q (F64.Entry.interest row)
         + F64.to_Q (F64.Entry.principal row)
         + F64.to_Q (F64.Entry.extra row).
Proof.
  do 2 eexists. split; [vm_compute; reflexivity|].
  split; [vm_compute; reflexivity|].
  split; [vm_compute; reflexivity|].
  vm_compute. discriminate.
Qed.

(** ** Balances in binary64 *)




(** ** Periods used in binary64 *)

Lemma F64_summarize_bounds (builtin_sum : list F64.float -> F64.float)
    (self : F64.Mortgage) (re : F64.float)
    (lumps : option (gmap Z F64.float)) :
  (1 <= F64.total_periods self)%Z ->
  let sched := F64.amortization_schedule self re lumps in
  exists s,
    F64.summarize_schedule builtin_sum sched = Ok s /\
    F64.Summary.periods_used s = Z.of_nat (length sched) /\
    (1 <= F64.Summary.periods_used s <= F64.total_periods self)%Z.
Proof.
  intros HT sched.
  pose proof (F64_amortization_schedule_nonempty self re lumps HT) as Hne.
  fold sched in Hne.
  destruct (last_nonempty sched Hne) as [row Hrow].
  unfold F64.summarize_schedule. rewrite Hrow.
  eexists. split; [reflexivity|]. cbn [F64.Summary.periods_used].
  rewrite last_lookup in Hrow.
  destruct (F64_amortization_schedule_row _ _ _ _ _ Hrow) as (Hp & -> & _).
  rewrite F64_schedule_step_period.
  destruct sched; [contradiction|]. cbn [length Nat.pred] in *.
  split; [reflexivity|lia].
Qed.

(** C6 (amended). With exact arithmetic, for a constructed loan with
    positive principal and rate and at least one period, the no-extra
    schedule summarizes with periods_used = total_periods.  In binary64,
    for every loan with at least one period, every extra input and every
    sum algorithm, summarizing succeeds, periods_used is the number of
    rows and 1 <= periods_used <= total_periods. *)
Theorem baseline_periods_bounds :
  (forall (P a y : Q) (c : Z) (m : Mortgage),
      __init__ P a y c = Ok m ->
      0 < principal m -> 0 < monthly_rate m -> (1 <= total_periods m)%Z ->
      exists s,
        summarize_schedule (amortization_schedule m 0 None) = Ok s /\
        Summary.periods_used s = total_periods m) /\
  (forall (builtin_sum : list F64.float -> F64.float) (self : F64.Mortgage)
          (re : F64.float) (lumps : option (gmap Z F64.float)),
      (1 <= F64.total_periods self)%Z ->
      let sched := F64.amortization_schedule self re lumps in
      exists s,
        F64.summarize_schedule builtin_sum sched = Ok s /\
        F64.Summary.periods_used s = Z.of_nat (length sched) /\
        (1 <= F64.Summary.periods_used s <= F64.total_periods self)%Z).
Proof.
  split.
  - exact baseline_uses_all_periods.
  - exact F64_summarize_bounds.
Qed.

Lemma baseline_periods_bounds_witness :
  (exists s,
      summarize_schedule (amortization_schedule (the_loan loan_two) 0 None)
      = Ok s /\
      Summary.periods_used s = 2%Z) /\
  (exists s,
      F64.summarize_schedule F64.sum_left
        (F64.amortization_schedule
           (F64.the_loan (F64.__init__ F64.pow_rounded (F64.of_Z 1000)
                            (F64.dec 64 15) (F64.of_Z 2) 2))
           F64.zero None) = Ok s /\
      F64.Summary.periods_used s
      = Z.of_nat (length (F64.amortization_schedule
                            (F64.the_loan
                               (F64.__init__ F64.pow_rounded (F64.of_Z 1000)
                                  (F64.dec 64 15) (F64.of_Z 2) 2))
                            F64.zero None)) /\
      (1 <= F64.Summary.periods_used s
       <= F64.total_periods
            (F64.the_loan (F64.__init__ F64.pow_rounded (F64.of_Z 1000)
                             (F64.dec 64 15) (F64.of_Z 2) 2)))%Z).
Proof.
  split.
  - apply (proj1 baseline_periods_bounds 100 50 2 1%Z (the_loan loan_two)).
    + vm_compute. reflexivity.
    + vm_compute. reflexivity.
    + vm_compute. reflexivity.
    + vm_compute. discriminate.
  - apply (proj2 baseline_periods_bounds F64.sum_left
             (F64.the_loan (F64.__init__ F64.pow_rounded (F64.of_Z 1000)
                              (F64.dec 64 15) (F64.of_Z 2) 2))
             F64.zero None).
    vm_compute. discriminate.
Defined.

(** C6 as the claim states it.  Mortgage(1000, 6.4e-14, 2, 2) has rate
    3.2e-16 > 0, total_periods 4 and payment 360.28797018964; with no
    extras the third row is capped and the schedule has 3 rows, so
    periods_used is 3. *)
Lemma baseline_stops_early_counterexample :
  exists m s,
    F64.__init__ F64.pow_rounded (F64.of_Z 1000) (F64.dec 64 15) (F64.of_Z 2) 2
    = Ok m /\
    F64.ltb F64.zero (F64.principal m) = true /\
    F64.ltb F64.zero (F64.monthly_rate m) = true /\
    F64.total_periods m = 4%Z /\
    length (F64.amortization_schedule m F64.zero None) = 3%nat /\
    F64.summarize_schedule F64.sum_left
      (F64.amortization_schedule m F64.zero None) = Ok s /\
    F64.Summary.periods_used s = 3%Z.
Proof.
  do 2 eexists. split; [vm_compute; reflexivity|].
  repeat (split; [vm_compute; reflexivity|]). vm_compute. reflexivity.
Qed.

(** ** Construction in binary64 *)

Lemma F64_add_one_zero (r : F64.float) :
  F64.eqb r F64.zero = true -> F64.add F64.one r = F64.one.
Proof.
  destruct r as [[]|[]| |[] m e]; intros H; try reflexivity;
    vm_compute in H; discriminate.
Qed.

Lemma F64_py_pow_one (libm_pow : F64.float -> F64.float -> F64.float)
    (n : Z) (w : F64.float) :
  F64.of_int n = Ok w -> F64.py_pow libm_pow F64.one n = Ok F64.one.
Proof.
  intros Hw. unfold F64.py_pow. rewrite Hw. cbn [bind].
  destruct (F64.trunc w =? 0)%Z; reflexivity.
Qed.

(** C7 (amended). With exact arithmetic, construction computes the payment
    by the annuity formula on P = principal,
    r = (annual_rate / 100) / compounds_per_year and
    n = floor(years * compounds_per_year); the denominator (1 + r)^n - 1
    is nonzero and construction succeeds when r > 0 and n >= 1, and
    construction raises ZeroDivisionError when r = 0.  In binary64, for
    every pow of the C library: a constructed loan has the rounded
    quotient r = (annual_rate / 100) / compounds_per_year as its rate,
    n = int(years * compounds_per_year) as its period count and
    (P * (r * pw)) / (pw - 1) as its payment, where pw is the value of
    (1 + r) ** n, each operation rounded, and pw - 1 is not zero;
    construction raises ZeroDivisionError whenever the computed pw - 1 is
    zero; and it raises ZeroDivisionError when the computed r is zero and
    n converts to a float. *)
Theorem periodic_payment_construction :
  (forall (P a y : Q) (c : Z),
      let r := (a / 100) / inject_Z c in
      let n := Qfloor (y * inject_Z c) in
      (forall m, __init__ P a y c = Ok m -> 0 <= y * inject_Z c ->
         principal m = P /\ monthly_rate m = r /\ total_periods m = n /\
         monthly_payment m = P * (r * (1 + r) ^ n) / ((1 + r) ^ n - 1)) /\
      (0 < r -> (1 <= n)%Z ->
       ~ (1 + r) ^ n - 1 == 0 /\ exists m, __init__ P a y c = Ok m) /\
      (r == 0 -> __init__ P a y c = Raise ZeroDivisionError)) /\
  (forall (libm_pow : F64.float -> F64.float -> F64.float)
          (P a y : F64.float) (c : Z),
      (forall m, F64.__init__ libm_pow P a y c = Ok m ->
         exists cf pw,
           F64.of_int c = Ok cf /\
           F64.eqb cf F64.zero = false /\
           F64.principal m = P /\
           F64.monthly_rate m = F64.div (F64.div a (F64.of_Z 100)) cf /\
           F64.py_int (F64.mul y cf) = Ok (F64.total_periods m) /\
           F64.py_pow libm_pow (F64.add F64.one (F64.monthly_rate m))
             (F64.total_periods m) = Ok pw /\
           F64.eqb (F64.sub pw F64.one) F64.zero = false /\
           F64.monthly_payment m
           = F64.div (F64.mul P (F64.mul (F64.monthly_rate m) pw))
                     (F64.sub pw F64.one)) /\
      (forall cf n pw,
         F64.of_int c = Ok cf -> F64.eqb cf F64.zero = false ->
         F64.py_int (F64.mul y cf) = Ok n ->
         F64.py_pow libm_pow
           (F64.add F64.one (F64.div (F64.div a (F64.of_Z 100)) cf)) n
         = Ok pw ->
         F64.eqb (F64.sub pw F64.one) F64.zero = true ->
         F64.__init__ libm_pow P a y c = Raise ZeroDivisionError) /\
      (forall cf n w,
         F64.of_int c = Ok cf -> F64.eqb cf F64.zero = false ->
         F64.py_int (F64.mul y cf) = Ok n -> F64.of_int n = Ok w ->
         F64.eqb (F64.div (F64.div a (F64.of_Z 100)) cf) F64.zero = true ->
         F64.__init__ libm_pow P a y c = Raise ZeroDivisionError)).
Proof.
  split; [exact periodic_payment_formula|].
  intros libm_pow P a y c.
  assert (Hzero : forall cf n pw,
             F64.of_int c = Ok cf -> F64.eqb cf F64.zero = false ->
             F64.py_int (F64.mul y cf) = Ok n ->
             F64.py_pow libm_pow
               (F64.add F64.one (F64.div (F64.div a (F64.of_Z 100)) cf)) n
             = Ok pw ->
             F64.eqb (F64.sub pw F64.one) F64.zero = true ->
             F64.__init__ libm_pow P a y c = Raise ZeroDivisionError).
  { intros cf n pw Hcf Hnz Hn Hpw Hden.
    unfold F64.__init__. rewrite Hcf. cbn [bind].
    unfold F64.py_div at 1. rewrite Hnz. cbn [bind]. rewrite Hn. cbn [bind].
    unfold F64._calc_periodic_payment. rewrite Hpw. cbn [bind].
    unfold F64.py_div. rewrite Hden. reflexivity. }
  split; [|split].
  - intros m. unfold F64.__init__.
    destruct (F64.of_int c) as [cf|] eqn:Hcf; [|discriminate]. cbn [bind].
    unfold F64.py_div at 1.
    destruct (F64.eqb cf F64.zero) eqn:Hnz; [discriminate|]. cbn [bind].
    destruct (F64.py_int (F64.mul y cf)) as [n|] eqn:Hn; [|discriminate].
    cbn [bind]. unfold F64._calc_periodic_payment.
    destruct (F64.py_pow libm_pow _ n) as [pw|] eqn:Hpw; [|discriminate].
    cbn [bind]. unfold F64.py_div.
    destruct (F64.eqb (F64.sub pw F64.one) F64.zero) eqn:Hden; [discriminate|].
    cbn [bind]. intros [= <-]. exists cf, pw.
    cbn [F64.principal F64.monthly_rate F64.total_periods F64.monthly_payment].
    repeat (split; [assumption || reflexivity|]). reflexivity.
  - exact Hzero.
  - intros cf n w Hcf Hnz Hn Hw Hr.
    apply (Hzero cf n F64.one Hcf Hnz Hn).
    + rewrite (F64_add_one_zero _ Hr). exact (F64_py_pow_one libm_pow n w Hw).
    + reflexivity.
Qed.

Lemma periodic_payment_construction_witness :
  (exists cf pw,
      F64.of_int 1 = Ok cf /\
      F64.eqb cf F64.zero = false /\
      F64.principal
        (F64.the_loan (F64.__init__ F64.pow_rounded (F64.of_Z 100)
                         (F64.of_Z 50) (F64.of_Z 2) 1)) = F64.of_Z 100 /\
      F64.monthly_rate
        (F64.the_loan (F64.__init__ F64.pow_rounded (F64.of_Z 100)
                         (F64.of_Z 50) (F64.of_Z 2) 1))
      = F64.div (F64.div (F64.of_Z 50) (F64.of_Z 100)) cf /\
      F64.py_int (F64.mul (F64.of_Z 2) cf)
      = Ok (F64.total_periods
              (F64.the_loan (F64.__init__ F64.pow_rounded (F64.of_Z 100)
                               (F64.of_Z 50) (F64.of_Z 2) 1))) /\
      F64.py_pow F64.pow_rounded
        (F64.add F64.one
           (F64.monthly_rate
              (F64.the_loan (F64.__init__ F64.pow_rounded (F64.of_Z 100)
                               (F64.of_Z 50) (F64.of_Z 2) 1))))
        (F64.total_periods
           (F64.the_loan (F64.__init__ F64.pow_rounded (F64.of_Z 100)
                            (F64.of_Z 50) (F64.of_Z 2) 1))) = Ok pw /\
      F64.eqb (F64.sub pw F64.one) F64.zero = false /\
      F64.monthly_payment
        (F64.the_loan (F64.__init__ F64.pow_rounded (F64.of_Z 100)
                         (F64.of_Z 50) (F64.of_Z 2) 1))
      = F64.div
          (F64.mul (F64.of_Z 100)
             (F64.mul
                (F64.monthly_rate
                   (F64.the_loan
                      (F64.__init__ F64.pow_rounded (F64.of_Z 100)
                         (F64.of_Z 50) (F64.of_Z 2) 1))) pw))
          (F64.sub pw F64.one)) /\
  F64.__init__ F64.pow_rounded (F64.of_Z 100) F64.zero (F64.of_Z 2) 1
  = Raise ZeroDivisionError.
Proof.
  split.
  - apply (proj1 (proj2 periodic_payment_construction F64.pow_rounded
                    (F64.of_Z 100) (F64.of_Z 50) (F64.of_Z 2) 1%Z)).
    vm_compute. reflexivity.
  - apply (proj2 (proj2 (proj2 periodic_payment_construction F64.pow_rounded
                           (F64.of_Z 100) F64.zero (F64.of_Z 2) 1%Z))
             F64.one 2%Z (F64.of_Z 2)).
    + vm_compute. reflexivity.
    + vm_compute. reflexivity.
    + vm_compute. reflexivity.
    + vm_compute. reflexivity.
    + vm_compute. reflexivity.
Defined.

(** C7 as the claim states it.  Mortgage(100, 1e-14, 1, 1) has
    r = 1e-16 > 0 and n = 1, but 1 + r rounds to 1.0, the denominator
    (1 + r) ** 1 - 1 is 0.0 and the division raises ZeroDivisionError. *)
Lemma tiny_rate_counterexample :
  exists r,
    F64.py_div (F64.div (F64.dec 1 14) (F64.of_Z 100)) (F64.of_Z 1) = Ok r /\
    F64.ltb F64.zero r = true /\
    F64.py_int (F64.mul (F64.of_Z 1) (F64.of_Z 1)) = Ok 1%Z /\
    F64.py_pow F64.pow_rounded (F64.add F64.one r) 1 = Ok F64.one /\
    F64.__init__ F64.pow_rounded (F64.of_Z 100) (F64.dec 1 14) (F64.of_Z 1) 1
    = Raise ZeroDivisionError.
Proof.
  eexists. split; [vm_compute; reflexivity|].
  repeat (split; [vm_compute; reflexivity|]). vm_compute. reflexivity.
Qed.

(** ** Acceleration, and the extra of the last period *)


Section LastExtra.
Variable self : Mortgage.
Variable re : Q.
Variable lumps : gmap Z Q.

Local Abbreviation r := (monthly_rate self).
Local Abbreviation mp := (monthly_payment self).

Hypothesis r_pos : 0 < r.
Hypothesis mp_pos : 0 < mp.

End LastExtra.



(** ** What a row never records, in binary64 *)

(** X6. In binary64, for every loan and every extra input, row i + 1 of
    the schedule has period i + 1, the extra it records is either the
    extra requested for its period or 0.0, its payment is either
    periodic_payment + that extra or balance + interest, and its balance
    field is never negative. *)
Theorem row_extra_and_balance_clamped (self : F64.Mortgage) (re : F64.float)
    (lumps : option (gmap Z F64.float)) (i : nat) (row : F64.Entry.t) :
  F64.amortization_schedule self re lumps !! i = Some row ->
  let x := F64.extra_for re (default ∅ lumps) (F64.Entry.period row) in
  let b := F64.balance_before (F64.principal self)
             (F64.amortization_schedule self re lumps) i in
  F64.Entry.period row = Z.of_nat (S i) /\
  (F64.Entry.extra row = x \/ F64.Entry.extra row = F64.zero) /\
  (F64.Entry.payment row = F64.add (F64.monthly_payment self) x \/
   F64.Entry.payment row = F64.add b (F64.Entry.interest row)) /\
  F64.ltb (F64.Entry.balance row) F64.zero = false.
Proof.
  intros H x b.
  destruct (F64_amortization_schedule_row _ _ _ _ _ H) as (_ & Hrow & _).
  fold b in Hrow.
  assert (Hper : F64.Entry.period row = Z.of_nat (S i)).
  { rewrite Hrow. apply F64_schedule_step_period. }
  split; [exact Hper|].
  assert (Hbal : F64.ltb (F64.Entry.balance row) F64.zero = false).
  { rewrite Hrow, F64_schedule_step_balance. apply F64_py_max_not_negative. }
  unfold x. rewrite Hper. clear x.
  unfold F64.schedule_step in Hrow.
  destruct (F64.ltb b _) in Hrow; cbn [fst] in Hrow; subst row;
    cbn [F64.Entry.extra F64.Entry.payment F64.Entry.interest] in *.
  - split; [now right|]. split; [now right|exact Hbal].
  - split; [now left|]. split; [now left|exact Hbal].
Qed.

Lemma row_extra_and_balance_clamped_witness :
  exists row,
    F64.amortization_schedule
      (F64.the_loan (F64.__init__ F64.pow_rounded (F64.of_Z 100) (F64.of_Z 50)
                       (F64.of_Z 2) 1))
      (F64.of_Z 70) None !! 0%nat = Some row /\
    F64.Entry.period row = 1%Z /\
    F64.ltb (F64.Entry.balance row) F64.zero = false.
Proof.
  eexists. split; [vm_compute; reflexivity|].
  destruct (row_extra_and_balance_clamped
              (F64.the_loan (F64.__init__ F64.pow_rounded (F64.of_Z 100)
                               (F64.of_Z 50) (F64.of_Z 2) 1))
              (F64.of_Z 70) None 0%nat
              (F64.Entry.mk 1 (F64.of_Z 150) (F64.of_Z 50) (F64.of_Z 100)
                 F64.zero F64.zero))
    as (Hp & _ & _ & Hb).
  - vm_compute. reflexivity.
  - split; [exact Hp | exact Hb].
Defined.

(** ** Errors of construction, in binary64 *)

Lemma bind_raise {A B : Type} (r : result A) (k : A -> result B) (e : exn) :
  bind r k = Raise e ->
  r = Raise e \/ exists v, r = Ok v /\ k v = Raise e.
Proof. destruct r as [v|e']; cbn [bind]; [eauto|intros [= ->]; now left]. Qed.

Lemma F64_of_int_raise (z : Z) (e : exn) :
  F64.of_int z = Raise e -> e = OverflowError.
Proof.
  unfold F64.of_int. destruct (F64.of_Z z); intros [= <-]; reflexivity.
Qed.

Lemma F64_py_int_raise (x : F64.float) (e : exn) :
  F64.py_int x = Raise e ->
  (x = S754_nan /\ e = ValueError) \/
  ((exists s, x = S754_infinity s) /\ e = OverflowError).
Proof. destruct x; intros [= <-]; eauto. Qed.

Lemma F64_py_div_raise (a b : F64.float) (e : exn) :
  F64.py_div a b = Raise e -> F64.eqb b F64.zero = true /\ e = ZeroDivisionError.
Proof.
  unfold F64.py_div. destruct (F64.eqb b F64.zero); intros [= <-]; auto.
Qed.

Lemma F64_py_pow_raise (libm_pow : F64.float -> F64.float -> F64.float)
    (base : F64.float) (n : Z) (e : exn) :
  F64.py_pow libm_pow base n = Raise e ->
  e = OverflowError \/ e = ZeroDivisionError.
Proof.
  unfold F64.py_pow. intros [H|(w & _ & H)]%bind_raise.
  - left. exact (F64_of_int_raise _ _ H).
  - destruct (F64.trunc w =? 0)%Z; [discriminate|].
    destruct base as [s|s| |s m e'].
    + destruct (F64.trunc w <? 0)%Z; [injection H as <-; now right|].
      discriminate.
    + destruct (0 <? F64.trunc w)%Z; discriminate.
    + discriminate.
    + destruct (F64.eqb _ F64.one); [discriminate|].
      destruct (if s && Z.odd (F64.trunc w) then _ else _);
        try discriminate.
      injection H as <-. now left.
Qed.

(** X1. In binary64, for every pow of the C library: construction with
    compounds_per_year = 0 raises ZeroDivisionError whatever the other
    arguments are; a failing construction raises ZeroDivisionError,
    OverflowError or ValueError and nothing else; and it raises ValueError
    only when years * compounds_per_year is not a number. *)
Theorem init_error_cases
    (libm_pow : F64.float -> F64.float -> F64.float) (P a y : F64.float) :
  F64.__init__ libm_pow P a y 0 = Raise ZeroDivisionError /\
  (forall (c : Z) (e : exn),
      F64.__init__ libm_pow P a y c = Raise e ->
      (e = ZeroDivisionError \/ e = OverflowError \/ e = ValueError) /\
      (e = ValueError ->
       exists cf, F64.of_int c = Ok cf /\ F64.mul y cf = S754_nan)).
Proof.
  split; [reflexivity|].
  intros c e. unfold F64.__init__.
  intros [H|(cf & Hcf & H)]%bind_raise.
  { apply F64_of_int_raise in H as ->.
    split; [auto|discriminate]. }
  apply bind_raise in H as [H|(r & _ & H)].
  { apply F64_py_div_raise in H as [_ ->]. split; [auto|discriminate]. }
  apply bind_raise in H as [H|(n & _ & H)].
  { apply F64_py_int_raise in H as [[Hnan ->]|[_ ->]].
    - split; [auto|]. intros _. now exists cf.
    - split; [auto|discriminate]. }
  apply bind_raise in H as [H|(mp & _ & H)]; [|discriminate].
  unfold F64._calc_periodic_payment in H.
  apply bind_raise in H as [H|(pw & _ & H)].
  { apply F64_py_pow_raise in H as [->| ->]; (split; [auto|discriminate]). }
  apply bind_raise in H as [H|(pw' & _ & H)].
  { apply F64_py_pow_raise in H as [->| ->]; (split; [auto|discriminate]). }
  apply F64_py_div_raise in H as [_ ->]. split; [auto|discriminate].
Qed.

Lemma init_error_cases_witness :
  ZeroDivisionError = ZeroDivisionError \/
  ZeroDivisionError = OverflowError \/ ZeroDivisionError = ValueError.
Proof.
  apply (proj2 (init_error_cases F64.pow_rounded (F64.of_Z 100) (F64.dec 1 14)
                  (F64.of_Z 1)) 1%Z ZeroDivisionError).
  vm_compute. reflexivity.
Defined.
